(** * Turn-based combat engine of the text adventure (game/combat.py)

    A shallow embedding of [CombatSystem] and its nested [Enemy] class,
    followed by the properties of the turn engine, the ability resolver and
    the damage formula.

    Modelling conventions.
    - Python [int] is [Z]; Python [float] is an exact rational [Q] (rounding of
      binary floating point is not modelled); [int(x)] is truncation toward
      zero.
    - A [dict] used as a table is a [gmap string _]; a [dict] used as a record
      (the player, an ability, a buff) is a [Record] whose optional keys are
      [option] fields.
    - The object [self] is threaded through a state monad; an exception leaves
      the mutations made before it in place, so a raising computation still
      yields the state it reached.
    - The module [random] is a tape of samples consumed in order: [random()]
      reads the fractional part of the next sample, [randint(a, b)] scales it
      to [a..b].
    - The text returned by an operation is a structured message carrying the
      interpolated values; colours and pictographs are dropped. *)

From Stdlib Require Import ZArith QArith Qround String Ascii List Lia.
From stdpp Require Import gmap strings list fin_maps.

Open Scope string_scope.
Open Scope list_scope.
Open Scope stdpp_scope.
Open Scope Z_scope.

(** ** Numbers *)

(** [int(x)] on a float: truncation toward zero. *)
Definition int (q : Q) : Z := Z.quot (Qnum q) (Z.pos (Qden q)).

Definition Qltb (x y : Q) : bool := negb (Qle_bool y x).

(** Python's [max(a, b)] and [min(a, b)] on floats: the first argument wins
    a tie. *)
Definition pymax (a b : Q) : Q := if Qltb a b then b else a.
Definition pymin (a b : Q) : Q := if Qltb b a then b else a.

(** ** Strings *)

Definition upper_ascii (c : ascii) : ascii :=
  let n := nat_of_ascii c in
  if ((97 <=? n) && (n <=? 122))%nat then ascii_of_nat (n - 32) else c.

Definition lower_ascii (c : ascii) : ascii :=
  let n := nat_of_ascii c in
  if ((65 <=? n) && (n <=? 90))%nat then ascii_of_nat (n + 32) else c.

Fixpoint map_string (f : ascii → ascii) (s : string) : string :=
  match s with
  | EmptyString => EmptyString
  | String c r => String (f c) (map_string f r)
  end.

Definition upper : string → string := map_string upper_ascii.
Definition lower : string → string := map_string lower_ascii.

(** [x in l] for a list of strings. *)
Definition str_in (x : string) (l : list string) : bool :=
  existsb (String.eqb x) l.

(** [l.remove(x)]: drops the first occurrence. *)
Fixpoint list_remove (x : string) (l : list string) : list string :=
  match l with
  | [] => []
  | y :: r => if String.eqb x y then r else y :: list_remove x r
  end.

(** ** Enumerations *)

Inductive CombatState : Type :=
| ACTIVE | PLAYER_TURN | ENEMY_TURN | VICTORY | DEFEAT | FLEE.

#[global] Instance CombatState_eq_dec : EqDecision CombatState.
Proof. solve_decision. Defined.

Inductive DamageType : Type :=
| PHYSICAL | FIRE | ICE | LIGHTNING | POISON | HOLY | DARK | TRUE.

#[global] Instance DamageType_eq_dec : EqDecision DamageType.
Proof. solve_decision. Defined.

(** [damage_type.value] *)
Definition value (d : DamageType) : string :=
  match d with
  | PHYSICAL => "physical" | FIRE => "fire" | ICE => "ice"
  | LIGHTNING => "lightning" | POISON => "poison" | HOLY => "holy"
  | DARK => "dark" | TRUE => "true"
  end.

(** [DamageType[key]]: lookup by member name; [None] stands for KeyError. *)
Definition DamageType_by_name (key : string) : option DamageType :=
  if String.eqb key "PHYSICAL" then Some PHYSICAL
  else if String.eqb key "FIRE" then Some FIRE
  else if String.eqb key "ICE" then Some ICE
  else if String.eqb key "LIGHTNING" then Some LIGHTNING
  else if String.eqb key "POISON" then Some POISON
  else if String.eqb key "HOLY" then Some HOLY
  else if String.eqb key "DARK" then Some DARK
  else if String.eqb key "TRUE" then Some TRUE
  else None.

Inductive PyException : Type :=
| AttributeError | KeyError | TypeError | ValueError | ZeroDivisionError.

(** ** Catalog entries *)

(** An entry of [self.abilities]. Keys the engine reads with [.get] are
    optional; keys it never reads (description, aoe, condition, self_damage)
    are left out. *)
Record Ability : Type := mkAbility {
  ab_name : string;
  damage_mult : option Q;
  accuracy : option Z;
  effect : option string;
  effect_power : option Q;
  duration : option Z;
  self_effect : option string;
  damage_type : option string;
  lifesteal : option Q
}.

(** The [on_turn] callbacks of the status table. *)
Inductive OnTurn : Type :=
| OnTurnDamage (amount : Z) (dt : DamageType)   (* target.take_damage(n, t) *)
| OnTurnSkip.                                   (* target.skip_turn() *)

(** An entry of [self.status_effects]. [has_on_end] records that the key
    'on_end' is present; wherever it is, its value is [None]. *)
Record StatusEffect : Type := mkStatus {
  se_name : string;
  on_turn : option OnTurn;
  has_on_end : bool;
  stack : bool;
  max_stacks : option Z
}.

(** An entry of [self.enemy_types] (description left out). *)
Record EnemyData : Type := mkEnemyData {
  ed_name : string;
  ed_level : Z;
  base_health : Z;
  base_damage : Z;
  base_defense : Z;
  ed_speed : Z;
  ed_xp_reward : Z;
  ed_gold_reward : Z * Z;
  ed_abilities : list string;
  ed_resistances : gmap string Q;
  ed_weaknesses : gmap string Q;
  ed_attack_patterns : list string;
  loot_table : list string
}.

(** An entry of the table inside [get_player_ability]. *)
Record PlayerAbility : Type := mkPlayerAbility {
  pa_name : string;
  pa_damage_mult : Q;
  mana_cost : option Z;
  pa_accuracy : option Z;
  pa_effect : option string;
  pa_heal : option Z;
  pa_damage_type : option string
}.

(** A modifier held in [player_buffs]. *)
Record Buff : Type := mkBuff {
  buff_name : string;
  defense_mult : option Q;
  buff_damage_mult : option Q;
  buff_duration : Z
}.

(** An entry appended to [player_debuffs] by [apply_effect]. *)
Record Debuff : Type := mkDebuff {
  debuff_name : string;
  debuff_duration : Z;
  power : option Q
}.

(** An enemy's status entry: {'name', 'duration', 'stacks'}. *)
Record Status : Type := mkStatusEntry {
  st_name : string;
  st_duration : Z;
  stacks : Z
}.

#[global] Instance Status_eq_dec : EqDecision Status.
Proof. solve_decision. Defined.

(** An element of an item's effect list, tagged by its 'type' key. *)
Inductive ItemEffect : Type :=
| ItemHeal (amount : Z)
| ItemMana (amount : Z)
| ItemDamage (amount : Z) (dt : option string)
| ItemStatus (name : string) (dur : Z)
| ItemBuff (b : Buff).

(** ** Messages *)

Inductive Who : Type := You | Named (n : string).

Inductive Part : Type :=
| UsesFor (user : Who) (ability : string) (target : Who) (dmg : Z)
| Uses (user : Who) (ability : string)
| IsNow (target : Who) (status : string)
| Drains (user : Who) (amount : Z).

Inductive ItemPart : Type :=
| Healed (amount : Z)
| Dealt (dmg : Z) (enemy : string)
| Gained (buff : string).

Inductive Msg : Type :=
| MsgNotYourTurn                       (* "It's not your turn!" *)
| MsgInvalidAction                     (* "Invalid combat action!" *)
| MsgAttackMisses                      (* "Your attack misses!" *)
| MsgAttack (dmg : Z) (crit : option Z)
| MsgDefend
| MsgNoAbility (n : option string)     (* "You don't have the ability ..." *)
| MsgNoMana                            (* "Not enough mana!" *)
| MsgAbilityMiss (user : Who) (ability : string)
| MsgAbility (parts : list Part)
| MsgNoItem (n : option string)
| MsgUseItem (n : string) (parts : list ItemPart)
| MsgUsedItem (n : string) (parts : list ItemPart)
| MsgFlee                              (* "You successfully flee from combat!" *)
| MsgFleeFailed                        (* "You failed to flee!" *)
| MsgStunned (n : string)
| MsgEmpty
| MsgVictory (n : string) (xp gold : Z) (level_up : option Z) (loot : list string)
| MsgVictoryLog
| MsgDefeat (n : string)
| MsgDefeatLog
| MsgCombatStarted (n : string)
| MsgDescription (enemy_type : string)
| MsgNotInCombat                       (* "Not in combat!" *)
| MsgWait.                             (* "Wait for your turn!" *)

(** ** Results of a call *)

Inductive Result (A : Type) : Type :=
| Returns (a : A)
| Raises (e : PyException).
Arguments Returns {A} a.
Arguments Raises {A} e.

(** ** class Enemy *)

Module Enemy.

Record t : Type := mk {
  type : string;
  data : EnemyData;
  max_health : Z;
  health : Z;
  damage : Z;
  defense : Z;
  speed : Z;
  name : string;
  abilities : list string;
  attack_patterns : list string;
  pattern_index : Z;
  status_effects : list Status;
  buffs : list Buff;
  debuffs : list Debuff;
  xp_reward : Z;
  gold_min : Z;
  gold_max : Z;
  gold_reward : Z;
  resistances : gmap string Q;
  weaknesses : gmap string Q;
  stunned : bool;
  fleeing : bool;
  taunted : bool;
  taunt_target : option string
}.

Definition set_health (v : Z) (e : t) : t :=
  mk (type e) (data e) (max_health e) v (damage e) (defense e) (speed e)
     (name e) (abilities e) (attack_patterns e) (pattern_index e)
     (status_effects e) (buffs e) (debuffs e) (xp_reward e) (gold_min e)
     (gold_max e) (gold_reward e) (resistances e) (weaknesses e)
     (stunned e) (fleeing e) (taunted e) (taunt_target e).

Definition set_pattern_index (v : Z) (e : t) : t :=
  mk (type e) (data e) (max_health e) (health e) (damage e) (defense e)
     (speed e) (name e) (abilities e) (attack_patterns e) v
     (status_effects e) (buffs e) (debuffs e) (xp_reward e) (gold_min e)
     (gold_max e) (gold_reward e) (resistances e) (weaknesses e)
     (stunned e) (fleeing e) (taunted e) (taunt_target e).

Definition set_status_effects (v : list Status) (e : t) : t :=
  mk (type e) (data e) (max_health e) (health e) (damage e) (defense e)
     (speed e) (name e) (abilities e) (attack_patterns e) (pattern_index e)
     v (buffs e) (debuffs e) (xp_reward e) (gold_min e)
     (gold_max e) (gold_reward e) (resistances e) (weaknesses e)
     (stunned e) (fleeing e) (taunted e) (taunt_target e).

Definition set_stunned (v : bool) (e : t) : t :=
  mk (type e) (data e) (max_health e) (health e) (damage e) (defense e)
     (speed e) (name e) (abilities e) (attack_patterns e) (pattern_index e)
     (status_effects e) (buffs e) (debuffs e) (xp_reward e) (gold_min e)
     (gold_max e) (gold_reward e) (resistances e) (weaknesses e)
     v (fleeing e) (taunted e) (taunt_target e).

(** The multiplier [resist_mult] built by the first half of
    [take_damage]: starts at 1.0, multiplied by the resistance entry of the
    type if there is one, then by the weakness entry if there is one. *)
Definition resist_mult (damage_type : DamageType) (e : t) : Q :=
  let m := 1%Q in
  let m := match resistances e !! value damage_type with
           | Some r => (m * r)%Q
           | None => m
           end in
  match weaknesses e !! value damage_type with
  | Some w => (m * w)%Q
  | None => m
  end.

(** [take_damage(amount, damage_type)]: returns [final_damage] and the
    enemy with its health lowered by it. *)
Definition take_damage (amount : Q) (damage_type : DamageType) (e : t)
  : Z * t :=
  let final_damage := int (amount * resist_mult damage_type e) in
  let final_damage :=
    if decide (damage_type = PHYSICAL)
    then Z.max 1 (final_damage - defense e)
    else final_damage in
  (final_damage, set_health (health e - final_damage) e).

(** [heal(amount)]: returns the health actually restored. *)
Definition heal (amount : Z) (e : t) : Z * t :=
  let old_health := health e in
  let e' := set_health (Z.min (max_health e) (health e + amount)) e in
  (health e' - old_health, e').

Definition is_alive (e : t) : bool := 0 <? health e.

(** [get_next_ability()]: [None] stands for the ZeroDivisionError of
    [% len(...)] on an empty pattern list. *)
Definition get_next_ability (e : t) : option (string * t) :=
  match attack_patterns e with
  | [] => None
  | _ =>
    let i := pattern_index e `mod` Z.of_nat (length (attack_patterns e)) in
    match attack_patterns e !! Z.to_nat i with
    | Some ability => Some (ability, set_pattern_index (pattern_index e + 1) e)
    | None => None
    end
  end.

Definition apply_status (effect : string) (duration : Z) (e : t) : t :=
  set_status_effects
    (status_effects e ++ [mkStatusEntry effect duration 1]) e.

Definition skip_turn (e : t) : t := set_stunned true e.

(** [self.status_effects.remove(effect)]: drops the first entry equal to
    [effect]. *)
Fixpoint remove_status (x : Status) (l : list Status) : list Status :=
  match l with
  | [] => []
  | y :: r => if decide (x = y) then r else y :: remove_status x r
  end.

(** The loop of [process_status_effects] over the copy
    [self.status_effects[:]]. [n] counts the entries of the copy still to
    visit and [i] is the position, in the live list, of the entry being
    visited (entries are shared between the copy and the live list, so the
    decrement of 'duration' is seen in the live list). [combat_system] is
    the module-level global the method reads the status table from; when it
    is [None] the first visited entry raises AttributeError. When 'on_end'
    is a key of the entry's definition its value is [None], and calling it
    raises TypeError. *)
Fixpoint tick_effects (combat_system : option (gmap string StatusEffect))
    (n i : nat) (e : t) : Result unit * t :=
  match n with
  | O => (Returns tt, e)
  | S n' =>
    match status_effects e !! i with
    | None => (Returns tt, e)
    | Some eff =>
      match combat_system with
      | None => (Raises AttributeError, e)
      | Some table =>
        match table !! st_name eff with
        | None => tick_effects combat_system n' (S i) e
        | Some effect_data =>
          let e :=
            match on_turn effect_data with
            | Some (OnTurnDamage a d) => snd (take_damage (inject_Z a) d e)
            | Some OnTurnSkip => skip_turn e
            | None => e
            end in
          let eff' :=
            mkStatusEntry (st_name eff) (st_duration eff - 1) (stacks eff) in
          let e := set_status_effects (<[i := eff']> (status_effects e)) e in
          if st_duration eff' <=? 0 then
            if has_on_end effect_data then (Raises TypeError, e)
            else
              tick_effects combat_system n' i
                (set_status_effects
                   (remove_status eff' (status_effects e)) e)
          else tick_effects combat_system n' (S i) e
        end
      end
    end
  end.

Definition process_status_effects
    (combat_system : option (gmap string StatusEffect)) (e : t)
  : Result unit * t :=
  tick_effects combat_system (length (status_effects e)) 0 e.

End Enemy.

(** ** The player record (a dict shared with the rest of the game) *)

Module Player.

(** Keys the engine reads with [.get] or tests with [in] are optional. *)
Record t : Type := mk {
  health : Z;
  max_health : Z;
  strength : Z;
  defense : Z;
  level : Z;
  xp : Z;
  xp_to_next : Z;
  gold : Z;
  inventory : list string;
  mana : option Z;
  speed : option Z;
  abilities : option (list string);
  accuracy_mod : option Q
}.

Definition set_health (v : Z) (p : t) : t :=
  mk v (max_health p) (strength p) (defense p) (level p) (xp p)
     (xp_to_next p) (gold p) (inventory p) (mana p) (speed p)
     (abilities p) (accuracy_mod p).

Definition set_max_health (v : Z) (p : t) : t :=
  mk (health p) v (strength p) (defense p) (level p) (xp p)
     (xp_to_next p) (gold p) (inventory p) (mana p) (speed p)
     (abilities p) (accuracy_mod p).

Definition set_strength (v : Z) (p : t) : t :=
  mk (health p) (max_health p) v (defense p) (level p) (xp p)
     (xp_to_next p) (gold p) (inventory p) (mana p) (speed p)
     (abilities p) (accuracy_mod p).

Definition set_defense (v : Z) (p : t) : t :=
  mk (health p) (max_health p) (strength p) v (level p) (xp p)
     (xp_to_next p) (gold p) (inventory p) (mana p) (speed p)
     (abilities p) (accuracy_mod p).

Definition set_level (v : Z) (p : t) : t :=
  mk (health p) (max_health p) (strength p) (defense p) v (xp p)
     (xp_to_next p) (gold p) (inventory p) (mana p) (speed p)
     (abilities p) (accuracy_mod p).

Definition set_xp (v : Z) (p : t) : t :=
  mk (health p) (max_health p) (strength p) (defense p) (level p) v
     (xp_to_next p) (gold p) (inventory p) (mana p) (speed p)
     (abilities p) (accuracy_mod p).

Definition set_xp_to_next (v : Z) (p : t) : t :=
  mk (health p) (max_health p) (strength p) (defense p) (level p) (xp p)
     v (gold p) (inventory p) (mana p) (speed p)
     (abilities p) (accuracy_mod p).

Definition set_gold (v : Z) (p : t) : t :=
  mk (health p) (max_health p) (strength p) (defense p) (level p) (xp p)
     (xp_to_next p) v (inventory p) (mana p) (speed p)
     (abilities p) (accuracy_mod p).

Definition set_inventory (v : list string) (p : t) : t :=
  mk (health p) (max_health p) (strength p) (defense p) (level p) (xp p)
     (xp_to_next p) (gold p) v (mana p) (speed p)
     (abilities p) (accuracy_mod p).

Definition set_mana (v : option Z) (p : t) : t :=
  mk (health p) (max_health p) (strength p) (defense p) (level p) (xp p)
     (xp_to_next p) (gold p) (inventory p) v (speed p)
     (abilities p) (accuracy_mod p).

End Player.

(** ** class CombatSystem: the mutable attributes of [self] *)

Record BattleFlags : Type := mkFlags {
  enemy_initial_health : Z;
  player_initial_health : Z;
  rounds_survived : Z;
  special_abilities_used : list string
}.

Record CombatSystem : Type := mkSystem {
  player : Player.t;
  enemy : option Enemy.t;
  state : CombatState;
  turn_count : Z;
  combat_log : list Msg;
  battle_flags : option BattleFlags;
  player_buffs : list Buff;
  enemy_buffs : list Buff;
  player_debuffs : list Debuff;
  enemy_debuffs : list Debuff
}.

Definition set_player (v : Player.t) (s : CombatSystem) : CombatSystem :=
  mkSystem v (enemy s) (state s) (turn_count s) (combat_log s)
    (battle_flags s) (player_buffs s) (enemy_buffs s) (player_debuffs s)
    (enemy_debuffs s).

Definition set_enemy (v : option Enemy.t) (s : CombatSystem) : CombatSystem :=
  mkSystem (player s) v (state s) (turn_count s) (combat_log s)
    (battle_flags s) (player_buffs s) (enemy_buffs s) (player_debuffs s)
    (enemy_debuffs s).

Definition set_state (v : CombatState) (s : CombatSystem) : CombatSystem :=
  mkSystem (player s) (enemy s) v (turn_count s) (combat_log s)
    (battle_flags s) (player_buffs s) (enemy_buffs s) (player_debuffs s)
    (enemy_debuffs s).

Definition set_turn_count (v : Z) (s : CombatSystem) : CombatSystem :=
  mkSystem (player s) (enemy s) (state s) v (combat_log s)
    (battle_flags s) (player_buffs s) (enemy_buffs s) (player_debuffs s)
    (enemy_debuffs s).

Definition set_combat_log (v : list Msg) (s : CombatSystem) : CombatSystem :=
  mkSystem (player s) (enemy s) (state s) (turn_count s) v
    (battle_flags s) (player_buffs s) (enemy_buffs s) (player_debuffs s)
    (enemy_debuffs s).

Definition set_battle_flags (v : option BattleFlags) (s : CombatSystem)
  : CombatSystem :=
  mkSystem (player s) (enemy s) (state s) (turn_count s) (combat_log s)
    v (player_buffs s) (enemy_buffs s) (player_debuffs s)
    (enemy_debuffs s).

Definition set_player_buffs (v : list Buff) (s : CombatSystem) : CombatSystem :=
  mkSystem (player s) (enemy s) (state s) (turn_count s) (combat_log s)
    (battle_flags s) v (enemy_buffs s) (player_debuffs s)
    (enemy_debuffs s).

Definition set_player_debuffs (v : list Debuff) (s : CombatSystem)
  : CombatSystem :=
  mkSystem (player s) (enemy s) (state s) (turn_count s) (combat_log s)
    (battle_flags s) (player_buffs s) (enemy_buffs s) v
    (enemy_debuffs s).

(** ** The monad of a method body: state [self], the random tape, and
    exceptions that keep the state reached. *)

Record Outcome (A : Type) : Type := Out {
  result : Result A;
  final : CombatSystem;
  unread : list Q
}.
Arguments Out {A} result final unread.
Arguments result {A} o.
Arguments final {A} o.
Arguments unread {A} o.

Definition M (A : Type) : Type := CombatSystem → list Q → Outcome A.

Definition ret {A} (a : A) : M A := λ s t, Out (Returns a) s t.

Definition raise {A} (e : PyException) : M A := λ s t, Out (Raises e) s t.

Definition bind {A B} (m : M A) (k : A → M B) : M B :=
  λ s t,
    match m s t with
    | Out (Returns a) s' t' => k a s' t'
    | Out (Raises e) s' t' => Out (Raises e) s' t'
    end.

Definition gets {A} (f : CombatSystem → A) : M A :=
  λ s t, Out (Returns (f s)) s t.

Definition modify (f : CombatSystem → CombatSystem) : M unit :=
  λ s t, Out (Returns tt) (f s) t.

Notation "'do' x <~ m ; k" := (bind m (λ x, k))
  (at level 10, x name, m at level 100, k at level 200).
Notation "'do' ' p <~ m ; k" := (bind m (λ x, match x with p => k end))
  (at level 10, p pattern, m at level 100, k at level 200).
Notation "'run' m ; k" := (bind m (λ _, k))
  (at level 10, m at level 100, k at level 200).

(** ** module random *)

Definition frac (u : Q) : Q := (u - inject_Z (Qfloor u))%Q.

(** Next sample of the tape, as a number of [0, 1); an exhausted tape
    yields 0. *)
Definition random : M Q :=
  λ s t,
    match t with
    | [] => Out (Returns 0%Q) s []
    | u :: t' => Out (Returns (frac u)) s t'
    end.

(** The integer of [a..b] a sample [u] of [0, 1) stands for. *)
Definition scale (a b : Z) (u : Q) : Z :=
  a + Qfloor (u * inject_Z (b - a + 1)).

(** [random.randint(a, b)]: ValueError on an empty range. *)
Definition randint (a b : Z) : M Z :=
  if b <? a then raise ValueError
  else do u <~ random; ret (scale a b u).

(** ** The tables built by [__init__] *)

(** The entries 'goblin' and 'troll' of [setup_enemy_types], named because
    the examples below fight them. *)
Definition goblin_data : EnemyData :=
  mkEnemyData "Goblin" 1 25 5 3 12 15 (3, 8)
    ["scratch"; "dodge"]
    ∅ (list_to_map [("physical", 1.2%Q)])
    ["basic"; "basic"; "dodge"]
    ["goblin_ear"; "rusty_dagger"; "copper_coin"].

Definition troll_data : EnemyData :=
  mkEnemyData "Troll" 7 120 20 12 6 120 (30, 60)
    ["club_smash"; "regeneration"; "throw_rock"; "rage"]
    (list_to_map [("physical", 0.6%Q); ("fire", 0.5%Q)])
    (list_to_map [("acid", 1.5%Q); ("fire", 0.8%Q)])
    ["club_smash"; "basic"; "regeneration"; "rage"]
    ["troll_hide"; "giant_club"; "troll_blood"].

(** [setup_enemy_types] *)
Definition enemy_types : gmap string EnemyData :=
  list_to_map [
    ("goblin", goblin_data);
    ("wolf", mkEnemyData "Wolf" 2 35 8 4 15 25 (5, 12)
       ["bite"; "howl"; "pack_tactics"]
       ∅ (list_to_map [("fire", 1.2%Q)])
       ["basic"; "bite"; "howl"]
       ["wolf_pelt"; "wolf_tooth"; "raw_meat"]);
    ("bandit", mkEnemyData "Bandit" 2 40 7 5 10 30 (10, 25)
       ["stab"; "intimidate"; "flee"]
       ∅ ∅
       ["basic"; "stab"; "basic"; "intimidate"]
       ["leather_armor"; "short_sword"; "gold_coins"]);
    ("giant_spider", mkEnemyData "Giant Spider" 3 45 10 6 14 40 (8, 15)
       ["bite"; "web"; "poison"]
       (list_to_map [("poison", 0.5%Q)]) (list_to_map [("fire", 1.5%Q)])
       ["basic"; "bite"; "web"; "poison"]
       ["spider_silk"; "venom_sac"; "chitin"]);
    ("orc", mkEnemyData "Orc" 4 65 15 10 8 60 (15, 30)
       ["cleave"; "charge"; "berserk"]
       (list_to_map [("physical", 0.8%Q)]) (list_to_map [("holy", 1.3%Q)])
       ["basic"; "cleave"; "charge"; "berserk"]
       ["orc_axe"; "tusks"; "coarse_fur"]);
    ("skeleton", mkEnemyData "Skeleton Warrior" 4 50 12 8 11 55 (10, 20)
       ["slash"; "shield_block"; "bone_shield"]
       (list_to_map [("physical", 0.7%Q); ("poison", 0.0%Q)])
       (list_to_map [("holy", 2.0%Q); ("bludgeoning", 1.3%Q)])
       ["basic"; "slash"; "shield_block"; "bone_shield"]
       ["bone_fragments"; "rusted_sword"; "skull"]);
    ("dark_cultist", mkEnemyData "Dark Cultist" 5 55 10 7 12 75 (20, 40)
       ["shadow_bolt"; "life_drain"; "summon"; "curse"]
       (list_to_map [("dark", 0.5%Q)])
       (list_to_map [("holy", 1.8%Q); ("fire", 1.2%Q)])
       ["shadow_bolt"; "basic"; "life_drain"; "curse"]
       ["cultist_robes"; "dark_tome"; "ritual_dagger"]);
    ("troll", troll_data);
    ("wraith", mkEnemyData "Wraith" 8 85 18 15 14 150 (40, 80)
       ["life_drain"; "possess"; "invisibility"; "scream"]
       (list_to_map [("physical", 0.3%Q); ("fire", 0.5%Q); ("ice", 0.5%Q)])
       (list_to_map [("holy", 2.5%Q); ("lightning", 1.3%Q)])
       ["life_drain"; "invisibility"; "scream"; "life_drain"]
       ["ectoplasm"; "soul_shard"; "ethereal_dust"]);
    ("troll_king", mkEnemyData "Troll King" 10 250 30 18 8 500 (200, 500)
       ["mighty_smash"; "regeneration"; "earth_shake"; "roar"; "enrage"]
       (list_to_map [("physical", 0.5%Q); ("fire", 0.4%Q)])
       (list_to_map [("acid", 1.3%Q)])
       ["mighty_smash"; "roar"; "earth_shake"; "regeneration"; "enrage"]
       ["troll_crown"; "giant_tooth"; "kingly_trophy"]);
    ("dragon", mkEnemyData "Young Dragon" 12 400 40 25 12 1000 (500, 1000)
       ["fire_breath"; "claw"; "tail_whip"; "fly"; "fear"]
       (list_to_map [("physical", 0.6%Q); ("fire", 0.2%Q); ("ice", 0.5%Q)])
       (list_to_map [("lightning", 1.3%Q); ("holy", 1.2%Q)])
       ["fire_breath"; "claw"; "fly"; "fire_breath"; "fear"]
       ["dragon_scale"; "dragon_heart"; "golden_hoard"])
  ].

(** The entry [self.abilities['scratch']], the fallback of every lookup. *)
Definition scratch : Ability :=
  mkAbility "Scratch" (Some 0.8%Q) (Some 90) None None None None None None.

(** [setup_combat_abilities] *)
Definition abilities : gmap string Ability :=
  list_to_map [
    ("scratch", scratch);
    ("bite", mkAbility "Bite" (Some 1.2%Q) (Some 85)
       (Some "bleed") None None None None None);
    ("stab", mkAbility "Stab" (Some 1.3%Q) (Some 80)
       (Some "wound") None None None None None);
    ("howl", mkAbility "Howl" (Some 0%Q) (Some 100)
       (Some "reduce_defense") (Some 0.8%Q) (Some 3) None None None);
    ("pack_tactics", mkAbility "Pack Tactics" (Some 1.5%Q) (Some 90)
       None None None None None None);
    ("web", mkAbility "Web Shot" (Some 0.5%Q) (Some 75)
       (Some "slow") None (Some 2) None None None);
    ("poison", mkAbility "Poison Bite" (Some 0.9%Q) (Some 70)
       (Some "poison") (Some 3%Q) (Some 4) None None None);
    ("cleave", mkAbility "Cleave" (Some 1.4%Q) (Some 80)
       None None None None None None);
    ("charge", mkAbility "Charge" (Some 1.8%Q) (Some 70)
       (Some "stun") None (Some 1) None None None);
    ("berserk", mkAbility "Berserk" (Some 1.3%Q) (Some 90)
       None None (Some 3) (Some "increase_damage") None None);
    ("shield_block", mkAbility "Shield Block" (Some 0%Q) (Some 100)
       None (Some 1.5%Q) (Some 2) (Some "increase_defense") None None);
    ("bone_shield", mkAbility "Bone Shield" (Some 0%Q) (Some 100)
       None (Some 20%Q) (Some 3) (Some "damage_shield") None None);
    ("shadow_bolt", mkAbility "Shadow Bolt" (Some 1.5%Q) (Some 85)
       None None None None (Some "dark") None);
    ("life_drain", mkAbility "Life Drain" (Some 1.1%Q) (Some 80)
       None None None None (Some "dark") (Some 0.5%Q));
    ("curse", mkAbility "Curse" (Some 0%Q) (Some 70)
       (Some "reduce_all") (Some 0.7%Q) (Some 3) None None None);
    ("regeneration", mkAbility "Regeneration" (Some 0%Q) (Some 100)
       None (Some 10%Q) (Some 3) (Some "heal_over_time") None None);
    ("rage", mkAbility "Rage" (Some 1.0%Q) (Some 100)
       None (Some 1.3%Q) (Some 4) (Some "berserk_mode") None None);
    ("fire_breath", mkAbility "Fire Breath" (Some 2.0%Q) (Some 80)
       (Some "burn") (Some 8%Q) (Some 3) None (Some "fire") None);
    ("fear", mkAbility "Fearsome Presence" (Some 0%Q) (Some 60)
       (Some "fear") None (Some 2) None None None)
  ].

(** [setup_status_effects] (the 'modifier' tables are never read). *)
Definition status_effects : gmap string StatusEffect :=
  list_to_map [
    ("bleed", mkStatus "Bleeding" (Some (OnTurnDamage 5 TRUE)) true true (Some 3));
    ("poison", mkStatus "Poisoned" (Some (OnTurnDamage 4 POISON)) true true (Some 5));
    ("burn", mkStatus "Burning" (Some (OnTurnDamage 8 FIRE)) true false None);
    ("slow", mkStatus "Slowed" None false false None);
    ("stun", mkStatus "Stunned" (Some OnTurnSkip) false false None);
    ("fear", mkStatus "Frightened" None false false None);
    ("wound", mkStatus "Wounded" None false false None);
    ("bless", mkStatus "Blessed" None false false None);
    ("fortify", mkStatus "Fortified" None false false None);
    ("haste", mkStatus "Hasted" None false false None)
  ].

(** The module-level global [combat_system = None] read by
    [Enemy.process_status_effects]; nothing assigns it. It stands for the
    status table reached through it. *)
Definition combat_system : option (gmap string StatusEffect) := None.

(** [get_player_ability]: [None] stands for the empty dict returned for a
    name that is not in the table. *)
Definition get_player_ability (ability_name : string) : option PlayerAbility :=
  (list_to_map [
     ("power_attack",
      mkPlayerAbility "Power Attack" 1.5%Q (Some 5) (Some 75) None None None);
     ("quick_strike",
      mkPlayerAbility "Quick Strike" 0.8%Q (Some 3) (Some 95) None None None);
     ("shield_bash",
      mkPlayerAbility "Shield Bash" 1.0%Q (Some 4) (Some 80) (Some "stun")
        None None);
     ("healing_light",
      mkPlayerAbility "Healing Light" 0%Q (Some 10) None None (Some 25) None);
     ("fireball",
      mkPlayerAbility "Fireball" 1.8%Q (Some 15) (Some 70) None None
        (Some "fire"))
   ] : gmap string PlayerAbility) !! ability_name.

(** [get_item_effects] *)
Definition get_item_effects (item_name : string) : list ItemEffect :=
  default []
    ((list_to_map [
        ("health_potion", [ItemHeal 30]);
        ("mana_potion", [ItemMana 20]);
        ("bomb", [ItemDamage 25 (Some "fire")]);
        ("poison_dagger", [ItemDamage 15 None; ItemStatus "poison" 3])
      ] : gmap string (list ItemEffect)) !! lower item_name).

(** ** Methods of [CombatSystem] *)

(** The two objects an ability is used by or on: [self.player] (a dict) and
    the value of [self.enemy] (an [Enemy], or [None] before any combat). *)
Inductive Combatant : Type := ThePlayer | TheEnemy.

(** In-place mutation of the object [self.enemy] and of the dict
    [self.player]. *)
Definition modify_enemy (f : Enemy.t → Enemy.t) : M unit :=
  modify (λ s, set_enemy (f <$> enemy s) s).

Definition modify_player (f : Player.t → Player.t) : M unit :=
  modify (λ s, set_player (f (player s)) s).

(** Attribute access on [self.enemy]: AttributeError when it is [None]. *)
Definition the_enemy : M Enemy.t :=
  do e <~ gets enemy;
  match e with
  | Some e => ret e
  | None => raise AttributeError
  end.

(** [self.enemy.take_damage(amount, damage_type)] *)
Definition enemy_take_damage (amount : Q) (dt : DamageType) : M Z :=
  do e <~ the_enemy;
  run modify_enemy (λ e, snd (Enemy.take_damage amount dt e));
  ret (fst (Enemy.take_damage amount dt e)).

(** [x.name if hasattr(x, 'name') else 'You'] *)
Definition who (c : Combatant) : M Who :=
  match c with
  | ThePlayer => ret You
  | TheEnemy =>
    do e <~ gets enemy;
    ret (match e with Some e => Named (Enemy.name e) | None => You end)
  end.

(** A string used as a condition: [None] and the empty string are false. *)
Definition truthy (o : option string) : option string :=
  match o with
  | Some EmptyString => None
  | _ => o
  end.

(** [add_to_log]: the log keeps the 10 most recent messages. *)
Definition add_to_log (message : Msg) : M unit :=
  modify (λ s,
    let log := combat_log s ++ [message] in
    set_combat_log (if (10 <? length log)%nat then tail log else log) s).

(** [apply_effect] *)
Definition apply_effect (effect_name : string) (target : Combatant)
    (duration : Z) (power : option Q) : M (option Part) :=
  match status_effects !! effect_name with
  | Some effect_data =>
    run match target with
        | TheEnemy =>
          (* hasattr(target, 'apply_status') *)
          modify_enemy (Enemy.apply_status effect_name duration)
        | ThePlayer =>
          (* isinstance(target, dict) *)
          modify (λ s,
            set_player_debuffs
              (player_debuffs s ++ [mkDebuff effect_name duration power]) s)
        end;
    do w <~ who target;
    ret (Some (IsNow w (se_name effect_data)))
  | None => ret None
  end.

(** [target.take_damage(damage, damage_type)] inside [use_ability]: only an
    [Enemy] has the method. *)
Definition target_take_damage (target : Combatant) (damage : Z)
    (dt : DamageType) : M Z :=
  match target with
  | TheEnemy => enemy_take_damage (inject_Z damage) dt
  | ThePlayer => raise AttributeError
  end.

(** [use_ability] *)
Definition use_ability (user : Combatant) (ability_name : string)
    (target : Combatant) : M Msg :=
  let ability := default scratch (abilities !! ability_name) in
  (* Check accuracy *)
  do roll <~ randint 1 100;
  if default 85 (accuracy ability) <? roll then
    do w <~ who user;
    ret (MsgAbilityMiss w (ab_name ability))
  else
    (* Calculate damage *)
    let damage_mult := default 1%Q (damage_mult ability) in
    do '(base_damage, user_name) <~
       match user with
       | TheEnemy =>
         do e <~ gets enemy;
         match e with
         | Some e => ret (Enemy.damage e, Named (Enemy.name e))
         | None => raise TypeError
         end
       | ThePlayer =>
         do p <~ gets player;
         ret (Player.strength p, You)
       end;
    let damage := int (inject_Z base_damage * damage_mult) in
    (* Apply damage type *)
    match DamageType_by_name
            (upper (default "PHYSICAL" (damage_type ability))) with
    | None => raise KeyError
    | Some dt =>
      (* Deal damage if applicable *)
      do damage_dealt <~
         (if 0 <? damage then target_take_damage target damage dt else ret 0);
      do target_name <~ who target;
      let result_parts :=
        if 0 <? damage_dealt
        then [UsesFor user_name (ab_name ability) target_name damage_dealt]
        else [Uses user_name (ab_name ability)] in
      (* Apply effects *)
      do result_parts <~
         match truthy (effect ability) with
         | Some eff =>
           do r <~ apply_effect eff target (default 2 (duration ability))
                     (effect_power ability);
           ret (result_parts ++ option_list r)
         | None => ret result_parts
         end;
      (* Apply self effects *)
      do result_parts <~
         match truthy (self_effect ability) with
         | Some eff =>
           do r <~ apply_effect eff user (default 2 (duration ability))
                     (effect_power ability);
           ret (result_parts ++ option_list r)
         | None => ret result_parts
         end;
      (* Apply lifesteal *)
      do result_parts <~
         match lifesteal ability with
         | Some ls =>
           if negb (Qeq_bool ls 0) && (0 <? damage_dealt) then
             let heal_amount := int (inject_Z damage_dealt * ls) in
             do e <~ gets enemy;
             match user, e with
             | TheEnemy, Some e =>
               run modify_enemy (λ e, snd (Enemy.heal heal_amount e));
               ret (result_parts
                      ++ [Drains user_name (fst (Enemy.heal heal_amount e))])
             | _, _ =>
               run modify_player (λ p,
                     Player.set_health
                       (Z.min (Player.max_health p)
                          (Player.health p + heal_amount)) p);
               ret (result_parts ++ [Drains You heal_amount])
             end
           else ret result_parts
         | None => ret result_parts
         end;
      ret (MsgAbility result_parts)
    end.

(** [player_attack] *)
Definition player_attack : M Msg :=
  (* Calculate hit chance *)
  do p <~ gets player;
  let base_hit :=
    match Player.accuracy_mod p with
    | Some a => (85 * a)%Q
    | None => 85%Q
    end in
  do roll <~ randint 1 100;
  if Qltb base_hit (inject_Z roll) then
    run add_to_log MsgAttackMisses;
    ret MsgAttackMisses
  else
    (* Calculate damage *)
    do base_damage <~ randint (Player.strength p - 2) (Player.strength p + 2);
    (* Apply damage modifiers *)
    do buffs <~ gets player_buffs;
    let damage :=
      fold_left
        (λ d b, match buff_damage_mult b with
                | Some m => (d * m)%Q
                | None => d
                end)
        buffs (inject_Z base_damage) in
    (* Apply to enemy *)
    do actual_damage <~ enemy_take_damage damage PHYSICAL;
    run add_to_log (MsgAttack actual_damage None);
    (* Check for critical hit *)
    do c <~ randint 1 20;
    if c =? 20 then
      do crit_damage <~
         enemy_take_damage (inject_Z (Qfloor (damage / 2))) PHYSICAL;
      ret (MsgAttack actual_damage (Some crit_damage))
    else ret (MsgAttack actual_damage None).

(** [player_defend] *)
Definition player_defend : M Msg :=
  run modify (λ s,
        set_player_buffs
          (player_buffs s ++ [mkBuff "defending" (Some 1.5%Q) None 2]) s);
  run add_to_log MsgDefend;
  ret MsgDefend.

(** [player_ability]; [ability_name] is the [target] argument of the turn,
    [None] by default. *)
Definition player_ability (ability_name : option string) : M Msg :=
  do p <~ gets player;
  match ability_name with
  | None => ret (MsgNoAbility None)
  | Some n =>
    (* Check if player has ability *)
    if negb (str_in n (default [] (Player.abilities p))) then
      ret (MsgNoAbility (Some n))
    else
      (* Check mana cost *)
      let ability_data := get_player_ability n in
      if default 0 (Player.mana p) <? default 0 (ability_data ≫= mana_cost)
      then ret MsgNoMana
      else
        (* Use ability *)
        do result <~ use_ability ThePlayer n TheEnemy;
        (* Deduct mana *)
        run match ability_data ≫= mana_cost with
            | Some cost =>
              do p <~ gets player;
              match Player.mana p with
              | Some m => modify_player (Player.set_mana (Some (m - cost)))
              | None => raise KeyError
              end
            | None => ret tt
            end;
        run add_to_log result;
        ret result
  end.

(** The loop of [player_use_item] over the item's effect list. An effect of
    type 'damage' calls [self.enemy.take_damage] with a string or [None] as
    the damage type, on which [damage_type.value] raises AttributeError
    before anything is changed. *)
Fixpoint apply_item_effects (effects : list ItemEffect)
    (result : list ItemPart) : M (list ItemPart) :=
  match effects with
  | [] => ret result
  | ItemHeal amount :: rest =>
    do p <~ gets player;
    let heal_amount :=
      Z.min amount (Player.max_health p - Player.health p) in
    run modify_player (λ p, Player.set_health (Player.health p + heal_amount) p);
    apply_item_effects rest (result ++ [Healed heal_amount])
  | ItemDamage amount dt :: rest =>
    raise AttributeError
  | ItemBuff b :: rest =>
    run modify (λ s, set_player_buffs (player_buffs s ++ [b]) s);
    apply_item_effects rest (result ++ [Gained (buff_name b)])
  | _ :: rest => apply_item_effects rest result
  end.

(** [player_use_item] *)
Definition player_use_item (item_name : option string) : M Msg :=
  do p <~ gets player;
  match item_name with
  | None => ret (MsgNoItem None)
  | Some n =>
    (* Check if player has item *)
    if negb (str_in n (Player.inventory p)) then ret (MsgNoItem (Some n))
    else
      (* Process item effects *)
      do result <~ apply_item_effects (get_item_effects n) [];
      (* Remove item from inventory *)
      run modify_player (λ p,
            Player.set_inventory (list_remove n (Player.inventory p)) p);
      run add_to_log (MsgUsedItem n result);
      ret (MsgUseItem n result)
  end.

(** The chance computed by [player_flee], capped between 10% and 70%. *)
Definition flee_chance (player_speed enemy_speed : Z) : Q :=
  let c := (0.3 + inject_Z (player_speed - enemy_speed) * 0.05)%Q in
  pymax 0.1%Q (pymin 0.7%Q c).

(** [player_flee] *)
Definition player_flee : M Msg :=
  do p <~ gets player;
  let player_speed := default 10 (Player.speed p) in
  do e <~ the_enemy;
  let enemy_speed := Enemy.speed e in
  do u <~ random;
  if Qltb u (flee_chance player_speed enemy_speed) then
    run modify (set_state FLEE);
    run add_to_log MsgFlee;
    ret MsgFlee
  else
    run add_to_log MsgFleeFailed;
    ret MsgFleeFailed.

(** [self.enemy.process_status_effects()] *)
Definition enemy_process_status_effects : M unit :=
  do e <~ the_enemy;
  run modify_enemy (λ e, snd (Enemy.process_status_effects combat_system e));
  match fst (Enemy.process_status_effects combat_system e) with
  | Returns _ => ret tt
  | Raises x => raise x
  end.

(** [self.enemy.get_next_ability()] *)
Definition enemy_get_next_ability : M string :=
  do e <~ the_enemy;
  match Enemy.get_next_ability e with
  | Some (ability, _) =>
    run modify_enemy (λ e, Enemy.set_pattern_index (Enemy.pattern_index e + 1) e);
    ret ability
  | None => raise ZeroDivisionError
  end.

(** [process_enemy_turn] *)
Definition process_enemy_turn : M Msg :=
  do e <~ the_enemy;
  if negb (Enemy.is_alive e) then ret MsgEmpty
  else if Enemy.stunned e then
    (* Check if enemy is stunned *)
    run modify_enemy (Enemy.set_stunned false);
    ret (MsgStunned (Enemy.name e))
  else
    (* Process status effects *)
    run enemy_process_status_effects;
    (* Get enemy action *)
    do ability_name <~ enemy_get_next_ability;
    (* Use ability *)
    do result <~ use_ability TheEnemy ability_name ThePlayer;
    run add_to_log result;
    ret result.

(** [level_up]: returns the new level. *)
Definition level_up : M Z :=
  run modify_player (λ p,
        let p := Player.set_level (Player.level p + 1) p in
        let p := Player.set_xp (Player.xp p - Player.xp_to_next p) p in
        let p :=
          Player.set_xp_to_next
            (int (inject_Z (Player.xp_to_next p) * 1.5)) p in
        (* Increase stats *)
        let p := Player.set_max_health (Player.max_health p + 10) p in
        let p := Player.set_health (Player.max_health p) p in
        let p := Player.set_strength (Player.strength p + 2) p in
        Player.set_defense (Player.defense p + 1) p);
  do p <~ gets player;
  ret (Player.level p).

(** The loop of [get_loot]: each entry of the loot table is kept with
    probability 0.3 and added to the player's inventory. *)
Fixpoint roll_loot (table : list string) (loot : list string)
  : M (list string) :=
  match table with
  | [] => ret loot
  | item :: rest =>
    do u <~ random;
    if Qltb u 0.3%Q then
      run modify_player (λ p,
            Player.set_inventory (Player.inventory p ++ [item]) p);
      roll_loot rest (loot ++ [item])
    else roll_loot rest loot
  end.

(** [get_loot] *)
Definition get_loot : M (list string) :=
  do e <~ the_enemy;
  roll_loot (loot_table (Enemy.data e)) [].

(** [process_victory] *)
Definition process_victory : M Msg :=
  do e <~ the_enemy;
  (* Award XP *)
  let xp_gained := Enemy.xp_reward e in
  run modify_player (λ p, Player.set_xp (Player.xp p + xp_gained) p);
  (* Award gold *)
  let gold_gained := Enemy.gold_reward e in
  run modify_player (λ p, Player.set_gold (Player.gold p + gold_gained) p);
  (* Check for level up *)
  do p <~ gets player;
  do lvl <~
     (if Player.xp_to_next p <=? Player.xp p
      then do l <~ level_up; ret (Some l)
      else ret None);
  (* Get loot *)
  do loot <~ get_loot;
  run add_to_log MsgVictoryLog;
  ret (MsgVictory (Enemy.name e) xp_gained gold_gained lvl loot).

(** [process_defeat] *)
Definition process_defeat : M Msg :=
  do e <~ the_enemy;
  run add_to_log MsgDefeatLog;
  ret (MsgDefeat (Enemy.name e)).

(** The part of [process_player_turn] that follows the action, shared by the
    five branches of the dispatch; [first] is the action's message. *)
Definition after_player_action (first : Msg) : M (list Msg) :=
  let result := [first] in
  (* Check if enemy died *)
  do e <~ the_enemy;
  if negb (Enemy.is_alive e) then
    run modify (set_state VICTORY);
    do victory_result <~ process_victory;
    ret (result ++ [victory_result])
  else
    (* Switch to enemy turn *)
    run modify (set_state ENEMY_TURN);
    run modify (λ s, set_turn_count (turn_count s + 1) s);
    (* Process enemy turn *)
    do enemy_result <~ process_enemy_turn;
    let result := result ++ [enemy_result] in
    (* Check if player died *)
    do p <~ gets player;
    do result <~
       (if Player.health p <=? 0 then
          run modify (set_state DEFEAT);
          do d <~ process_defeat;
          ret (result ++ [d])
        else ret result);
    (* Switch back to player turn if combat continues *)
    do st <~ gets state;
    run (if bool_decide (st = ACTIVE)
         then modify (set_state PLAYER_TURN)
         else ret tt);
    ret result.

(** [process_player_turn]; the returned list is the text joined by
    newlines. *)
Definition process_player_turn (action : string)
    (target item : option string) : M (list Msg) :=
  do st <~ gets state;
  if negb (bool_decide (st = PLAYER_TURN)) then ret [MsgNotYourTurn]
  else
    (* Process action *)
    if String.eqb action "attack" then
      do r <~ player_attack; after_player_action r
    else if String.eqb action "defend" then
      do r <~ player_defend; after_player_action r
    else if String.eqb action "ability" then
      do r <~ player_ability target; after_player_action r
    else if String.eqb action "use_item" then
      do r <~ player_use_item item; after_player_action r
    else if String.eqb action "flee" then
      do r <~ player_flee; after_player_action r
    else ret [MsgInvalidAction].

(** [in_combat] *)
Definition in_combat (s : CombatSystem) : bool :=
  negb (bool_decide (state s ∈ [VICTORY; DEFEAT; FLEE])).

(** [process_turn] *)
Definition process_turn (action : string) : M (list Msg) :=
  do s <~ gets in_combat;
  if negb s then ret [MsgNotInCombat]
  else
    do st <~ gets state;
    if bool_decide (st = PLAYER_TURN)
    then process_player_turn action None None
    else ret [MsgWait].

(** [Enemy.__init__]: KeyError for an unknown type; the gold reward is drawn
    once, here. *)
Definition Enemy_init (enemy_type : string) (level_mult : Q)
    (enemy_data : gmap string EnemyData) : M Enemy.t :=
  match enemy_data !! enemy_type with
  | None => raise KeyError
  | Some d =>
    let max_health := int (inject_Z (base_health d) * level_mult) in
    let '(gold_min, gold_max) := ed_gold_reward d in
    do gold <~ randint gold_min (int (inject_Z gold_max * level_mult));
    ret (Enemy.mk enemy_type d
           max_health max_health
           (int (inject_Z (base_damage d) * level_mult))
           (int (inject_Z (base_defense d) * level_mult))
           (ed_speed d) (ed_name d) (ed_abilities d) (ed_attack_patterns d) 0
           [] [] []
           (int (inject_Z (ed_xp_reward d) * level_mult))
           gold_min gold_max gold
           (ed_resistances d) (ed_weaknesses d)
           false false false None)
  end.

(** [start_combat] *)
Definition start_combat (enemy_type : string) (level_mult : Q) : M unit :=
  do e <~ Enemy_init enemy_type level_mult enemy_types;
  run modify (set_enemy (Some e));
  run modify (set_state PLAYER_TURN);
  run modify (set_turn_count 0);
  run modify (set_combat_log []);
  (* Initialize battle flags *)
  run modify (λ s,
        set_battle_flags
          (Some (mkFlags (Enemy.health e) (Player.health (player s)) 0 [])) s);
  (* Log combat start *)
  run add_to_log (MsgCombatStarted (Enemy.name e));
  add_to_log (MsgDescription enemy_type).

(** [CombatSystem.__init__] *)
Definition CombatSystem_init (p : Player.t) : CombatSystem :=
  mkSystem p None ACTIVE 0 [] None [] [] [] [].

(** * Reasoning about method bodies *)

(** [preserves obs m]: running [m] leaves the observation [obs] of [self]
    as it was, whether [m] returns or raises. *)
Definition preserves {X A : Type} (obs : CombatSystem → X) (m : M A) : Prop :=
  ∀ s t, obs (final (m s t)) = obs s.

(** [self] with the entries [d] put in front of [player_debuffs]. *)
Definition with_debuffs (d : list Debuff) (s : CombatSystem) : CombatSystem :=
  set_player_debuffs (d ++ player_debuffs s) s.

Definition outcome_with_debuffs {A} (d : list Debuff) (o : Outcome A)
  : Outcome A :=
  Out (result o) (with_debuffs d (final o)) (unread o).

(** [inert m]: earlier entries of [player_debuffs] neither influence [m] nor
    are touched by it. *)
Definition inert {A : Type} (m : M A) : Prop :=
  ∀ d s t, m (with_debuffs d s) t = outcome_with_debuffs d (m s t).

(** What a reward may depend on and what an enemy action would change. *)
Definition ledger (s : CombatSystem) :=
  (turn_count s, Player.xp (player s), Player.gold (player s),
   Player.level (player s), Player.xp_to_next (player s),
   (λ e, (Enemy.pattern_index e, Enemy.xp_reward e, Enemy.gold_reward e))
     <$> enemy s).

(** What the enemy's turn leaves alone. *)
Definition bystander (s : CombatSystem) :=
  (state s, player s, turn_count s, player_buffs s,
   (λ e, (Enemy.health e, Enemy.xp_reward e, Enemy.gold_reward e))
     <$> enemy s).

(** The recognised actions of [process_player_turn]. *)
Definition recognised (action : string) : Prop :=
  action ∈ ["attack"; "defend"; "ability"; "use_item"; "flee"].

(** Health the player loses in one enemy turn. *)
Definition damage_taken (s : CombatSystem) (t : list Q) : Z :=
  Player.health (player s)
  - Player.health (player (final (process_enemy_turn s t))).

(** ** Concrete fights used by the examples *)

Definition hero : Player.t :=
  Player.mk 100 100 10 10 1 0 100 50 ["health_potion"] (Some 50) None
    (Some ["fireball"; "scratch"]) None.

(** The goblin spawned by [start_combat('goblin')] when the gold draw is 6. *)
Definition goblin : Enemy.t :=
  Enemy.mk "goblin" goblin_data 25 25 5 3 12 "Goblin"
    (ed_abilities goblin_data) (ed_attack_patterns goblin_data) 0 [] [] []
    15 3 8 6 (ed_resistances goblin_data) (ed_weaknesses goblin_data)
    false false false None.

(** The troll built by [Enemy('troll', 1.0, ...)] when the gold draw is 45. *)
Definition troll : Enemy.t :=
  Enemy.mk "troll" troll_data 120 120 20 12 6 "Troll"
    (ed_abilities troll_data) (ed_attack_patterns troll_data) 0 [] [] []
    120 30 60 45 (ed_resistances troll_data) (ed_weaknesses troll_data)
    false false false None.

Definition goblin_fight : CombatSystem :=
  mkSystem hero (Some goblin) PLAYER_TURN 0
    [MsgCombatStarted "Goblin"; MsgDescription "goblin"]
    (Some (mkFlags 25 100 0 [])) [] [] [] [].


(** The same fight for a player of strength 1. *)
Definition weak_fight : CombatSystem :=
  set_player (Player.set_strength 1 hero) goblin_fight.

(** Health of the current enemy. *)
Definition enemy_health (s : CombatSystem) : Z :=
  default 0 (Enemy.health <$> enemy s).

(** * Properties *)

(** ** Truncation and the damage formula *)

Lemma int_nonneg (q : Q) : 0 ≤ Qnum q → int q = Qfloor q.
Proof.
  destruct q as [a b]; simpl; intros Ha.
  unfold int; simpl. apply Z.quot_div_nonneg; lia.
Qed.

Lemma int_neg (q : Q) : Qnum q < 0 → int q = - Qfloor (- q).
Proof.
  destruct q as [a b]; simpl; intros Ha.
  unfold int; simpl.
  rewrite <- (Z.opp_involutive a) at 1.
  rewrite Z.quot_opp_l by lia.
  rewrite Z.quot_div_nonneg by lia. reflexivity.
Qed.

Lemma int_Qeq (q1 q2 : Q) : (q1 == q2)%Q → int q1 = int q2.
Proof.
  intros E.
  destruct (Z_lt_le_dec (Qnum q1) 0) as [H1 | H1].
  - assert (Qnum q2 < 0) as H2.
    { unfold Qeq in E. destruct q1 as [a b], q2 as [c d]; simpl in *. nia. }
    rewrite (int_neg q1 H1), (int_neg q2 H2).
    f_equal. apply Qfloor_comp. now rewrite E.
  - assert (0 ≤ Qnum q2) as H2.
    { unfold Qeq in E. destruct q1 as [a b], q2 as [c d]; simpl in *. nia. }
    rewrite (int_nonneg q1 H1), (int_nonneg q2 H2).
    now apply Qfloor_comp.
Qed.

Lemma take_damage_physical_floor amount e :
  1 ≤ fst (Enemy.take_damage amount PHYSICAL e).
Proof. unfold Enemy.take_damage; simpl. lia. Qed.

(** C8. When the damage type is a key of both the resistances and the
    weaknesses of the enemy, the multiplier applied by [take_damage] is the
    product of the two entries: the damage is int(amount * (r * w)), less the
    defense with a floor of 1 for the physical type, and the health drops by
    it. *)
Theorem take_damage_resistance_and_weakness
    (e : Enemy.t) (amount : Q) (dt : DamageType) (r w : Q) :
  Enemy.resistances e !! value dt = Some r →
  Enemy.weaknesses e !! value dt = Some w →
  (Enemy.resist_mult dt e == r * w)%Q
  ∧ fst (Enemy.take_damage amount dt e)
    = (if decide (dt = PHYSICAL)
       then Z.max 1 (int (amount * (r * w)) - Enemy.defense e)
       else int (amount * (r * w)))
  ∧ Enemy.health (snd (Enemy.take_damage amount dt e))
    = Enemy.health e - fst (Enemy.take_damage amount dt e).
Proof.
  intros Hr Hw.
  assert (Enemy.resist_mult dt e == r * w)%Q as E.
  { unfold Enemy.resist_mult. rewrite Hr, Hw. ring. }
  split; [exact E|]. split; [|reflexivity].
  unfold Enemy.take_damage; simpl.
  rewrite (int_Qeq (amount * Enemy.resist_mult dt e) (amount * (r * w)))
    by (now rewrite E).
  reflexivity.
Qed.

(** ** Rules for [preserves] *)

Section Preserves.
Context {X : Type} (obs : CombatSystem → X).

Lemma preserves_ret {A} (a : A) : preserves obs (ret a).
Proof. intros s t. reflexivity. Qed.

Lemma preserves_raise {A} e : preserves obs (raise e : M A).
Proof. intros s t. reflexivity. Qed.

Lemma preserves_gets {A} (f : CombatSystem → A) : preserves obs (gets f).
Proof. intros s t. reflexivity. Qed.

Lemma preserves_modify f :
  (∀ s, obs (f s) = obs s) → preserves obs (modify f).
Proof. intros H s t. apply H. Qed.

Lemma preserves_bind {A B} (m : M A) (k : A → M B) :
  preserves obs m → (∀ a, preserves obs (k a)) → preserves obs (bind m k).
Proof.
  intros Hm Hk s t. unfold bind.
  specialize (Hm s t).
  destruct (m s t) as [[a | e] s' t']; simpl in *.
  - rewrite Hk. exact Hm.
  - exact Hm.
Qed.

(** A sequence whose first part can only return values satisfying [P]. *)
Lemma preserves_bind_post {A B} (P : A → Prop) (m : M A) (k : A → M B) :
  preserves obs m →
  (∀ s t a, result (m s t) = Returns a → P a) →
  (∀ a, P a → preserves obs (k a)) →
  preserves obs (bind m k).
Proof.
  intros Hm HP Hk s t. unfold bind.
  specialize (Hm s t). specialize (HP s t).
  destruct (m s t) as [[a | e] s' t']; simpl in *.
  - rewrite (Hk a (HP a eq_refl)). exact Hm.
  - exact Hm.
Qed.

Lemma preserves_random : preserves obs random.
Proof. intros s [| u t]; reflexivity. Qed.

Lemma preserves_randint a b : preserves obs (randint a b).
Proof.
  unfold randint. destruct (b <? a).
  - apply preserves_raise.
  - apply preserves_bind; [apply preserves_random | intros; apply preserves_ret].
Qed.

Lemma preserves_the_enemy : preserves obs the_enemy.
Proof. intros s t. unfold the_enemy, bind, gets. destruct (enemy s); reflexivity. Qed.

Lemma preserves_who c : preserves obs (who c).
Proof. intros s t. destruct c; reflexivity. Qed.
End Preserves.

Create HintDb frames.
#[local] Hint Resolve preserves_ret preserves_raise preserves_gets
  preserves_random preserves_randint preserves_the_enemy preserves_who : frames.

(** One step of a frame proof: a known computation, a sequence, or a case
    split on the value a branch looks at. *)
Ltac frame_modify :=
  apply preserves_modify;
  let s := fresh "s" in
  intros s; unfold ledger, bystander; cbn;
  try reflexivity; destruct (enemy s); reflexivity.

Ltac frame_step :=
  first
    [ solve [auto with frames]
    | apply preserves_bind; [| intros ?]
    | frame_modify
    | match goal with
      | |- preserves _ (match ?x with _ => _ end) => destruct x
      | |- preserves _ (let '(_, _) := ?x in _) => destruct x
      end ].

Ltac frame := repeat frame_step.

Lemma add_to_log_ledger m : preserves ledger (add_to_log m).
Proof. unfold add_to_log. frame. Qed.
Lemma add_to_log_bystander m : preserves bystander (add_to_log m).
Proof. unfold add_to_log. frame. Qed.
#[local] Hint Resolve add_to_log_ledger add_to_log_bystander : frames.

Lemma enemy_take_damage_ledger a d : preserves ledger (enemy_take_damage a d).
Proof. unfold enemy_take_damage, modify_enemy. frame. Qed.
#[local] Hint Resolve enemy_take_damage_ledger : frames.

Lemma apply_effect_ledger n c d p : preserves ledger (apply_effect n c d p).
Proof. unfold apply_effect, modify_enemy. frame. Qed.
#[local] Hint Resolve apply_effect_ledger : frames.

Lemma use_ability_ledger u n c : preserves ledger (use_ability u n c).
Proof. unfold use_ability, target_take_damage, modify_enemy, modify_player. frame. Qed.
#[local] Hint Resolve use_ability_ledger : frames.

Lemma player_attack_ledger : preserves ledger player_attack.
Proof. unfold player_attack. frame. Qed.

Lemma player_defend_ledger : preserves ledger player_defend.
Proof. unfold player_defend. frame. Qed.

Lemma player_ability_ledger n : preserves ledger (player_ability n).
Proof. unfold player_ability, modify_player. frame. Qed.

Lemma apply_item_effects_ledger l r : preserves ledger (apply_item_effects l r).
Proof.
  revert r. induction l as [| eff l IH]; intros r; simpl.
  - frame.
  - destruct eff; unfold modify_player; frame; apply IH.
Qed.
#[local] Hint Resolve apply_item_effects_ledger : frames.

Lemma player_use_item_ledger n : preserves ledger (player_use_item n).
Proof. unfold player_use_item, modify_player. frame. Qed.

Lemma player_flee_ledger : preserves ledger player_flee.
Proof. unfold player_flee. frame. Qed.


(** *** The enemy's turn *)

(** With the global [combat_system] unset, ticking does nothing on an empty
    status list and raises on the first entry otherwise; the enemy is left
    as it was in both cases. *)
Lemma process_status_effects_unset e :
  Enemy.process_status_effects combat_system e
  = (match Enemy.status_effects e with
     | [] => Returns tt
     | _ :: _ => Raises AttributeError
     end, e).
Proof.
  unfold Enemy.process_status_effects, combat_system.
  destruct (Enemy.status_effects e) as [| x l] eqn:E; simpl.
  - reflexivity.
  - rewrite E. reflexivity.
Qed.

Lemma enemy_process_status_effects_bystander :
  preserves bystander enemy_process_status_effects.
Proof.
  unfold enemy_process_status_effects, modify_enemy.
  apply preserves_bind; [auto with frames | intros e].
  apply preserves_bind; [| intros _; frame].
  apply preserves_modify. intros s. unfold bystander; cbn.
  destruct (enemy s) as [e0|]; cbn; [|reflexivity].
  now rewrite process_status_effects_unset.
Qed.

Lemma apply_effect_bystander n c d p : preserves bystander (apply_effect n c d p).
Proof. unfold apply_effect, modify_enemy. frame. Qed.
#[local] Hint Resolve apply_effect_bystander enemy_process_status_effects_bystander
  : frames.

(** An enemy's ability on the player: a connecting hit with damage raises
    before anything changes, so the damage dealt, when the ability returns,
    is 0 and the drain is never reached. *)
Lemma use_ability_on_player_bystander n :
  preserves bystander (use_ability TheEnemy n ThePlayer).
Proof.
  unfold use_ability, target_take_damage.
  frame_step; [frame_step|]. destruct (_ <? a); [frame|].
  frame_step; [frame|]. destruct a0 as [base_damage user_name].
  destruct (DamageType_by_name _); [|frame].
  apply (preserves_bind_post _ (λ dd, dd = 0)).
  - frame.
  - intros s t dd. destruct (0 <? _); cbn; congruence.
  - intros dd ->. change (0 <? 0) with false.
    frame_step; [frame|].
    frame_step; [frame|].
    frame_step; [frame|].
    frame_step; [|frame].
    destruct (lifesteal _); [|frame].
    rewrite andb_false_r. frame.
Qed.
#[local] Hint Resolve use_ability_on_player_bystander : frames.

Lemma process_enemy_turn_bystander : preserves bystander process_enemy_turn.
Proof. unfold process_enemy_turn, enemy_get_next_ability, modify_enemy. frame. Qed.

(** *** Victory and defeat *)

Lemma roll_loot_returns table loot s t :
  ∃ l inv t',
    roll_loot table loot s t
    = Out (Returns l) (set_player (Player.set_inventory inv (player s)) s) t'.
Proof.
  revert loot s t. induction table as [| item rest IH]; intros loot s t; simpl.
  - exists loot, (Player.inventory (player s)), t.
    unfold ret. destruct s as [[] ? ? ? ? ? ? ? ? ?]; reflexivity.
  - unfold bind at 1, random.
    assert (∀ u t0, ∃ l inv t',
      (if Qltb u 0.3%Q
       then run modify_player
              (λ p, Player.set_inventory (Player.inventory p ++ [item]) p);
            roll_loot rest (loot ++ [item])
       else roll_loot rest loot) s t0
      = Out (Returns l) (set_player (Player.set_inventory inv (player s)) s) t')
      as Hstep.
    { intros u t0. destruct (Qltb u 0.3%Q).
      - unfold bind, modify_player, modify.
        destruct (IH (loot ++ [item])
                    (set_player
                       (Player.set_inventory
                          (Player.inventory (player s) ++ [item]) (player s)) s)
                    t0) as (l & inv & t' & ->).
        exists l, inv, t'. reflexivity.
      - apply IH. }
    destruct t as [| u t]; apply Hstep.
Qed.

(** ** Equations of the monad *)

Lemma bind_returns {A B} (m : M A) (k : A → M B) s t a s' t' :
  m s t = Out (Returns a) s' t' → bind m k s t = k a s' t'.
Proof. intros H. unfold bind. now rewrite H. Qed.

Lemma bind_raises {A B} (m : M A) (k : A → M B) s t e s' t' :
  m s t = Out (Raises e) s' t' → bind m k s t = Out (Raises e) s' t'.
Proof. intros H. unfold bind. now rewrite H. Qed.

Lemma the_enemy_some s t e :
  enemy s = Some e → the_enemy s t = Out (Returns e) s t.
Proof. intros H. unfold the_enemy, bind, gets. now rewrite H. Qed.

Lemma the_enemy_none s t :
  enemy s = None → the_enemy s t = Out (Raises AttributeError) s t.
Proof. intros H. unfold the_enemy, bind, gets. now rewrite H. Qed.

(** What [process_victory] does to the player's experience and level. *)
Lemma process_victory_spec s t e :
  enemy s = Some e →
  let o := process_victory s t in
  let x := Player.xp (player s) + Enemy.xp_reward e in
  (∃ m, result o = Returns m)
  ∧ state (final o) = state s
  ∧ enemy (final o) = Some e
  ∧ turn_count (final o) = turn_count s
  ∧ Player.gold (player (final o))
    = Player.gold (player s) + Enemy.gold_reward e
  ∧ Player.xp (player (final o))
    = (if Player.xp_to_next (player s) <=? x
       then x - Player.xp_to_next (player s) else x)
  ∧ Player.level (player (final o))
    = (if Player.xp_to_next (player s) <=? x
       then Player.level (player s) + 1 else Player.level (player s)).
Proof.
  intros He.
  unfold process_victory, the_enemy, level_up, get_loot, the_enemy, add_to_log,
    modify_player, bind, gets, modify, ret.
  cbn. rewrite He. cbn.
  destruct (Player.xp_to_next (player s)
            <=? Player.xp (player s) + Enemy.xp_reward e); cbn; rewrite ?He; cbn;
    match goal with
    | |- context [roll_loot ?a ?b ?c ?d] =>
      destruct (roll_loot_returns a b c d) as (l & inv & t' & ->)
    end; cbn; repeat split; eauto.
Qed.

Lemma process_defeat_some s t e :
  enemy s = Some e →
  ∃ s', process_defeat s t = Out (Returns (MsgDefeat (Enemy.name e))) s' t
        ∧ state s' = state s ∧ enemy s' = Some e ∧ player s' = player s
        ∧ turn_count s' = turn_count s ∧ player_buffs s' = player_buffs s.
Proof.
  intros He. unfold process_defeat.
  rewrite (bind_returns _ _ _ _ _ _ _ (the_enemy_some s t e He)).
  unfold bind, add_to_log, modify, ret. cbn.
  eexists. split; [reflexivity|]. cbn. auto.
Qed.

(** *** The part of the turn after the action *)

Lemma after_player_action_no_enemy first s t :
  enemy s = None →
  after_player_action first s t = Out (Raises AttributeError) s t.
Proof.
  intros He. unfold after_player_action.
  now rewrite (bind_raises _ _ _ _ _ _ _ (the_enemy_none s t He)).
Qed.

Lemma after_player_action_victory first s t e o :
  enemy s = Some e → Enemy.is_alive e = false →
  after_player_action first s t = o →
  let x := Player.xp (player s) + Enemy.xp_reward e in
  (∃ m, result o = Returns m)
  ∧ state (final o) = VICTORY
  ∧ enemy (final o) = Some e
  ∧ turn_count (final o) = turn_count s
  ∧ Player.gold (player (final o))
    = Player.gold (player s) + Enemy.gold_reward e
  ∧ Player.xp (player (final o))
    = (if Player.xp_to_next (player s) <=? x
       then x - Player.xp_to_next (player s) else x)
  ∧ Player.level (player (final o))
    = (if Player.xp_to_next (player s) <=? x
       then Player.level (player s) + 1 else Player.level (player s)).
Proof.
  intros He Hdead. unfold after_player_action.
  rewrite (bind_returns _ _ _ _ _ _ _ (the_enemy_some s t e He)).
  rewrite Hdead. cbn [negb].
  unfold bind, modify.
  pose proof (process_victory_spec (set_state VICTORY s) t e He) as Hv.
  cbn in Hv.
  destruct (process_victory (set_state VICTORY s) t) as [[m | x] s' t'];
    cbn in *; intros <-; cbn.
  - destruct Hv as (_ & Hst & Hen & Htc & Hg & Hx & Hl).
    repeat split; eauto.
  - destruct Hv as ([m Hm] & _). discriminate.
Qed.

Lemma after_player_action_alive first s t e o :
  enemy s = Some e → Enemy.is_alive e = true →
  after_player_action first s t = o →
  turn_count (final o) = turn_count s + 1
  ∧ player (final o) = player s
  ∧ player_buffs (final o) = player_buffs s
  ∧ Enemy.health <$> enemy (final o) = Some (Enemy.health e)
  ∧ (state (final o) = ENEMY_TURN ∨ state (final o) = DEFEAT)
  ∧ (∀ m, result o = Returns m →
       state (final o)
       = if Player.health (player s) <=? 0 then DEFEAT else ENEMY_TURN)
  ∧ (∀ m, result o = Returns m → ∃ rest, m = first :: rest)
  ∧ enemy (final o)
    = enemy (final (process_enemy_turn
                      (set_turn_count (turn_count s + 1)
                         (set_state ENEMY_TURN s)) t)).
Proof.
  intros He Halive. unfold after_player_action.
  rewrite (bind_returns _ _ _ _ _ _ _ (the_enemy_some s t e He)).
  rewrite Halive. cbn [negb].
  unfold bind at 1 2, modify. unfold bind at 1.
  set (s1 := set_turn_count _ _).
  pose proof (process_enemy_turn_bystander s1 t) as Hb.
  unfold bystander in Hb. cbn in Hb. rewrite He in Hb. cbn in Hb.
  destruct (process_enemy_turn s1 t) as [[m | x] s' t']; cbn in Hb;
    injection Hb as Hst Hpl Htc Hbf Hen;
    (destruct (enemy s') as [e' |] eqn:He'; [| discriminate]);
    cbn in Hen; injection Hen as Hh _ _.
  - unfold bind at 1, gets. rewrite Hpl.
    destruct (Player.health (player s) <=? 0).
    + unfold bind, modify, gets, ret.
      destruct (process_defeat_some (set_state DEFEAT s') t' e' He')
        as (s2 & -> & Hst2 & Hen2 & Hpl2 & Htc2 & Hbf2).
      cbn in Hst2. rewrite Hst2.
      case_bool_decide; [discriminate|].
      intros <-; cbn in *.
      rewrite Hen2; cbn. repeat split; try congruence; eauto.
      intros ? [= <-]; eauto.
    + unfold bind, ret, gets. rewrite Hst.
      case_bool_decide; [discriminate|].
      intros <-; cbn. rewrite He'; cbn.
      repeat split; try congruence; eauto.
      intros ? [= <-]; eauto.
  - intros <-; cbn. rewrite He'; cbn.
    repeat split; try congruence; eauto; discriminate.
Qed.

(** *** The dispatch of [process_player_turn] *)

Lemma process_player_turn_rejected action target item s t :
  state s ≠ PLAYER_TURN →
  process_player_turn action target item s t
  = Out (Returns [MsgNotYourTurn]) s t.
Proof.
  intros Hst. unfold process_player_turn, bind, gets.
  rewrite bool_decide_eq_false_2 by exact Hst. reflexivity.
Qed.

Lemma process_player_turn_dispatch action target item s t :
  state s = PLAYER_TURN → recognised action →
  ∃ act : M Msg,
    preserves ledger act
    ∧ process_player_turn action target item s t
      = bind act after_player_action s t.
Proof.
  intros Hst Hact. unfold process_player_turn.
  unfold bind at 1, gets.
  rewrite bool_decide_eq_true_2 by exact Hst. cbn [negb].
  unfold recognised in Hact.
  repeat (apply elem_of_cons in Hact as [-> | Hact]); cbn.
  - exists player_attack. split; [apply player_attack_ledger | reflexivity].
  - exists player_defend. split; [apply player_defend_ledger | reflexivity].
  - exists (player_ability target).
    split; [apply player_ability_ledger | reflexivity].
  - exists (player_use_item item).
    split; [apply player_use_item_ledger | reflexivity].
  - exists player_flee. split; [apply player_flee_ledger | reflexivity].
  - inversion Hact.
Qed.

Lemma is_alive_health e e' :
  Enemy.health e' = Enemy.health e → Enemy.is_alive e' = Enemy.is_alive e.
Proof. unfold Enemy.is_alive. now intros ->. Qed.

(** C4. A call made while the state is ENEMY_TURN, VICTORY, DEFEAT or FLEE
    returns the message "It's not your turn!" and changes nothing: the whole
    of [self] (the player's health, mana, gold, xp and inventory, the enemy
    with its health and status entries, the turn count, the state) and the
    random tape are as before. *)
Theorem out_of_turn_call_is_rejected action target item s t :
  state s ∈ [ENEMY_TURN; VICTORY; DEFEAT; FLEE] →
  process_player_turn action target item s t
  = Out (Returns [MsgNotYourTurn]) s t.
Proof.
  intros Hst. apply process_player_turn_rejected.
  intros E. rewrite E in Hst.
  repeat (apply elem_of_cons in Hst as [Hst | Hst]; [discriminate|]).
  inversion Hst.
Qed.

(** C1 (fails on the code). The closing test of [process_player_turn]
    compares the state with ACTIVE, which it never is at that point, so the
    state set before the enemy's action stays. Whenever a call made in
    PLAYER_TURN with a recognised action returns, the final state is VICTORY
    if the enemy is dead, else DEFEAT if the player's health is 0 or below,
    else ENEMY_TURN: with the enemy alive and the player alive it is
    ENEMY_TURN, never PLAYER_TURN. *)
Theorem turn_is_never_handed_back action target item s t msgs :
  state s = PLAYER_TURN → recognised action →
  let o := process_player_turn action target item s t in
  result o = Returns msgs →
  ∃ e', enemy (final o) = Some e'
        ∧ state (final o)
          = (if Enemy.is_alive e'
             then if Player.health (player (final o)) <=? 0
                  then DEFEAT else ENEMY_TURN
             else VICTORY)
        ∧ state (final o) ≠ PLAYER_TURN.
Proof.
  intros Hst Hact o Hres. subst o.
  destruct (process_player_turn_dispatch action target item s t Hst Hact)
    as (act & _ & Heq).
  rewrite Heq in *. clear Heq.
  destruct (act s t) as [[r | x] s1 t1] eqn:Ea.
  2: { rewrite (bind_raises _ _ _ _ _ _ _ Ea) in Hres. discriminate. }
  rewrite (bind_returns _ _ _ _ _ _ _ Ea) in *.
  destruct (enemy s1) as [e1 |] eqn:He1.
  2: { rewrite (after_player_action_no_enemy _ _ _ He1) in Hres. discriminate. }
  destruct (Enemy.is_alive e1) eqn:Halive.
  - destruct (after_player_action_alive r s1 t1 e1 _ He1 Halive eq_refl)
      as (_ & Hpl & _ & Hen & _ & Hfin & _).
    destruct (enemy (final (after_player_action r s1 t1))) as [e' |];
      [| discriminate].
    cbn in Hen. injection Hen as Hh.
    exists e'. rewrite (is_alive_health _ _ Hh), Halive, Hpl.
    rewrite (Hfin _ Hres).
    split; [reflexivity|]. split; [reflexivity|].
    destruct (Player.health (player s1) <=? 0); discriminate.
  - destruct (after_player_action_victory r s1 t1 e1 _ He1 Halive eq_refl)
      as (_ & Hstate & Hen & _).
    exists e1. rewrite Halive, Hstate.
    split; [exact Hen|]. split; [reflexivity | discriminate].
Qed.


Lemma process_enemy_turn_player s t :
  player (final (process_enemy_turn s t)) = player s.
Proof.
  pose proof (process_enemy_turn_bystander s t) as H.
  unfold bystander in H. congruence.
Qed.

(** C7 (fails on the code). The 'defense_mult' entry appended by defend is
    read by nothing, and an enemy's hit cannot take health from the player at
    all: for every state and all draws the enemy's turn takes 0 health from
    the player, right after a defend as without one. The damage after
    defending is therefore equal, not strictly less. *)
Theorem defend_does_not_reduce_damage s t t' :
  damage_taken (final (player_defend s t')) t = 0
  ∧ damage_taken s t = 0.
Proof.
  unfold damage_taken. rewrite !process_enemy_turn_player. lia.
Qed.

(** *** Evaluation of single steps *)

Lemma randint_cons a b s u t :
  a ≤ b → randint a b s (u :: t) = Out (Returns (scale a b (frac u))) s t.
Proof.
  intros Hab. unfold randint.
  destruct (b <? a) eqn:E; [apply Z.ltb_lt in E; lia | reflexivity].
Qed.

Lemma enemy_take_damage_some a d s t e :
  enemy s = Some e →
  enemy_take_damage a d s t
  = Out (Returns (fst (Enemy.take_damage a d e)))
        (set_enemy (Some (snd (Enemy.take_damage a d e))) s) t.
Proof.
  intros He. unfold enemy_take_damage.
  rewrite (bind_returns _ _ _ _ _ _ _ (the_enemy_some s t e He)).
  unfold bind, modify_enemy, modify, ret. now rewrite He.
Qed.

Lemma enemy_process_status_effects_empty s t e :
  enemy s = Some e → Enemy.status_effects e = [] →
  enemy_process_status_effects s t = Out (Returns tt) (set_enemy (Some e) s) t.
Proof.
  intros He Hnil. unfold enemy_process_status_effects.
  rewrite (bind_returns _ _ _ _ _ _ _ (the_enemy_some s t e He)).
  unfold bind, modify_enemy, modify, ret.
  rewrite process_status_effects_unset, Hnil, He. cbn.
  now rewrite process_status_effects_unset.
Qed.

Lemma get_next_ability_some e :
  Enemy.attack_patterns e ≠ [] →
  ∃ n e', Enemy.get_next_ability e = Some (n, e').
Proof.
  intros Hne. unfold Enemy.get_next_ability.
  destruct (Enemy.attack_patterns e) as [| x l] eqn:E; [congruence|].
  destruct (lookup_lt_is_Some_2 (x :: l)
              (Z.to_nat (Enemy.pattern_index e `mod` Z.of_nat (length (x :: l)))))
    as [n Hn].
  - pose proof (Z.mod_pos_bound (Enemy.pattern_index e)
                  (Z.of_nat (length (x :: l)))) as Hb.
    cbn [length] in *. lia.
  - rewrite Hn. eauto.
Qed.

(** The enemy returned by [get_next_ability] is the same enemy with its
    pattern index advanced by one. *)
Lemma get_next_ability_advances e n e' :
  Enemy.get_next_ability e = Some (n, e') →
  e' = Enemy.set_pattern_index (Enemy.pattern_index e + 1) e.
Proof.
  unfold Enemy.get_next_ability.
  destruct (Enemy.attack_patterns e); [discriminate|].
  destruct (_ !! _); [| discriminate].
  now intros [= _ <-].
Qed.

Lemma enemy_get_next_ability_some s t e n e' :
  enemy s = Some e → Enemy.get_next_ability e = Some (n, e') →
  enemy_get_next_ability s t
  = Out (Returns n)
        (set_enemy
           (Some (Enemy.set_pattern_index (Enemy.pattern_index e + 1) e)) s) t.
Proof.
  intros He Hn. unfold enemy_get_next_ability.
  rewrite (bind_returns _ _ _ _ _ _ _ (the_enemy_some s t e He)).
  rewrite Hn. unfold bind, modify_enemy, modify, ret. now rewrite He.
Qed.

(** The enemy's turn when it is alive, not stunned and free of status
    entries: the next pattern entry is used on the player. *)
Lemma process_enemy_turn_unfold s t e n e' :
  enemy s = Some e → Enemy.is_alive e = true → Enemy.stunned e = false →
  Enemy.status_effects e = [] → Enemy.get_next_ability e = Some (n, e') →
  process_enemy_turn s t
  = (do result <~ use_ability TheEnemy n ThePlayer;
     run add_to_log result; ret result)
      (set_enemy
         (Some (Enemy.set_pattern_index (Enemy.pattern_index e + 1) e)) s) t.
Proof.
  intros He Halive Hstun Hnil Hn. unfold process_enemy_turn.
  rewrite (bind_returns _ _ _ _ _ _ _ (the_enemy_some s t e He)).
  rewrite Halive, Hstun. cbn [negb].
  rewrite (bind_returns _ _ _ _ _ _ _
             (enemy_process_status_effects_empty s t e He Hnil)).
  rewrite (bind_returns _ _ _ _ _ _ _
             (enemy_get_next_ability_some (set_enemy (Some e) s) t e n e'
                eq_refl Hn)).
  reflexivity.
Qed.

Lemma process_enemy_turn_acts s t e :
  enemy s = Some e → Enemy.is_alive e = true → Enemy.stunned e = false →
  Enemy.status_effects e = [] → Enemy.attack_patterns e ≠ [] →
  Enemy.pattern_index <$> enemy (final (process_enemy_turn s t))
  = Some (Enemy.pattern_index e + 1).
Proof.
  intros He Halive Hstun Hnil Hpat.
  destruct (get_next_ability_some e Hpat) as (n & e' & Hn).
  rewrite (process_enemy_turn_unfold s t e n e' He Halive Hstun Hnil Hn).
  assert (preserves ledger
            (do result <~ use_ability TheEnemy n ThePlayer;
             run add_to_log result; ret result)) as Hled by frame.
  match goal with
  | |- context [final (_ ?s1 t)] => specialize (Hled s1 t)
  end.
  unfold ledger in Hled. cbn in Hled.
  match type of Hled with
  | (_, ?a) = (_, ?b) => assert (a = b) as Hen by congruence
  end.
  clear Hled.
  match type of Hen with
  | _ <$> ?x = _ => destruct x as [e2 |]; [| discriminate]
  end.
  cbn in Hen |- *. congruence.
Qed.

(** A connecting enemy ability with positive damage: [target.take_damage]
    does not exist on the player's dict. *)
Lemma use_ability_on_player_raises n s u t e dt :
  enemy s = Some e →
  scale 1 100 (frac u) ≤ default 85 (accuracy (default scratch (abilities !! n))) →
  0 < int (inject_Z (Enemy.damage e)
           * default 1%Q (damage_mult (default scratch (abilities !! n)))) →
  DamageType_by_name
    (upper (default "PHYSICAL" (damage_type (default scratch (abilities !! n)))))
  = Some dt →
  use_ability TheEnemy n ThePlayer s (u :: t) = Out (Raises AttributeError) s t.
Proof.
  intros He Hroll Hdmg Hdt. unfold use_ability.
  rewrite (bind_returns _ _ _ _ _ _ _ (randint_cons 1 100 s u t ltac:(lia))).
  apply Z.ltb_ge in Hroll. rewrite Hroll.
  unfold bind at 1. unfold bind at 1, gets. rewrite He. cbn [ret].
  rewrite Hdt. apply Z.ltb_lt in Hdmg. rewrite Hdmg.
  reflexivity.
Qed.

Lemma player_flee_success s u t e :
  enemy s = Some e →
  Qltb (frac u)
    (flee_chance (default 10 (Player.speed (player s))) (Enemy.speed e)) = true →
  ∃ s1, player_flee s (u :: t) = Out (Returns MsgFlee) s1 t
        ∧ state s1 = FLEE ∧ enemy s1 = Some e ∧ turn_count s1 = turn_count s
        ∧ player s1 = player s.
Proof.
  intros He Hu. unfold player_flee.
  unfold bind at 1, gets.
  rewrite (bind_returns _ _ _ _ _ _ _ (the_enemy_some s (u :: t) e He)).
  unfold bind at 1, random. rewrite Hu.
  unfold bind, add_to_log, modify, ret. cbn.
  eexists. split; [reflexivity|]. cbn. auto.
Qed.

Lemma player_defend_returns s t :
  ∃ s1, player_defend s t = Out (Returns MsgDefend) s1 t
        ∧ state s1 = state s ∧ enemy s1 = enemy s ∧ player s1 = player s
        ∧ turn_count s1 = turn_count s.
Proof.
  unfold player_defend, bind, add_to_log, modify, ret. cbn.
  eexists. split; [reflexivity|]. cbn. auto.
Qed.

Lemma after_player_action_enemy_raises first s t e x :
  enemy s = Some e → Enemy.is_alive e = true →
  let s1 := set_turn_count (turn_count s + 1) (set_state ENEMY_TURN s) in
  result (process_enemy_turn s1 t) = Raises x →
  after_player_action first s t
  = Out (Raises x) (final (process_enemy_turn s1 t))
        (unread (process_enemy_turn s1 t)).
Proof.
  intros He Halive s1 Hx. unfold after_player_action.
  rewrite (bind_returns _ _ _ _ _ _ _ (the_enemy_some s t e He)).
  rewrite Halive. cbn [negb].
  unfold bind at 1 2, modify. fold s1.
  destruct (process_enemy_turn s1 t) as [r s' t'] eqn:E. cbn in Hx. subst r.
  now rewrite (bind_raises _ _ _ _ _ _ _ E).
Qed.

Lemma process_player_turn_flee target item s t :
  state s = PLAYER_TURN →
  process_player_turn "flee" target item s t
  = bind player_flee after_player_action s t.
Proof.
  intros Hst. unfold process_player_turn. unfold bind at 1, gets.
  now rewrite bool_decide_eq_true_2 by exact Hst.
Qed.

Lemma process_player_turn_defend target item s t :
  state s = PLAYER_TURN →
  process_player_turn "defend" target item s t
  = bind player_defend after_player_action s t.
Proof.
  intros Hst. unfold process_player_turn. unfold bind at 1, gets.
  now rewrite bool_decide_eq_true_2 by exact Hst.
Qed.

(** C2 (fails on the code). A flee whose draw is below the capped chance
    sets FLEE, but the enemy is still alive, so the turn goes on: the state
    is overwritten with ENEMY_TURN, the turn count advances, the enemy's
    action is resolved (its pattern index advances when it is free to act),
    and the state at the end is ENEMY_TURN or DEFEAT, never FLEE, although
    the text returned starts with the successful-flee message. *)
Theorem flee_success_is_overwritten target item s u t e :
  state s = PLAYER_TURN → enemy s = Some e → Enemy.is_alive e = true →
  Qltb (frac u)
    (flee_chance (default 10 (Player.speed (player s))) (Enemy.speed e)) = true →
  let o := process_player_turn "flee" target item s (u :: t) in
  state (final o) ≠ FLEE
  ∧ (state (final o) = ENEMY_TURN ∨ state (final o) = DEFEAT)
  ∧ turn_count (final o) = turn_count s + 1
  ∧ (∀ msgs, result o = Returns msgs → ∃ rest, msgs = MsgFlee :: rest)
  ∧ (Enemy.stunned e = false → Enemy.status_effects e = [] →
     Enemy.attack_patterns e ≠ [] →
     Enemy.pattern_index <$> enemy (final o) = Some (Enemy.pattern_index e + 1)).
Proof.
  intros Hst He Halive Hu o. subst o.
  rewrite process_player_turn_flee by exact Hst.
  destruct (player_flee_success s u t e He Hu)
    as (s1 & Hflee & Hst1 & He1 & Htc1 & Hpl1).
  rewrite (bind_returns _ _ _ _ _ _ _ Hflee).
  destruct (after_player_action_alive MsgFlee s1 t e _ He1 Halive eq_refl)
    as (Htc & _ & _ & _ & Hstate & _ & Hres & Hen).
  split. { destruct Hstate as [-> | ->]; discriminate. }
  split; [exact Hstate|].
  split; [congruence|].
  split; [exact Hres|].
  intros Hstun Hnil Hpat. rewrite Hen.
  now apply process_enemy_turn_acts.
Qed.

(** C3 (fails on the code). An enemy ability that connects with positive
    damage calls [take_damage] on the player's dict, which has no such
    method: the turn raises AttributeError and leaves the session in
    ENEMY_TURN. The fallback of an unknown ability name to 'scratch' does
    hold, and is what turns an unknown pattern entry into a damaging
    attack. *)
Theorem enemy_hit_raises target item s u t e n e' dt :
  state s = PLAYER_TURN → enemy s = Some e → Enemy.is_alive e = true →
  Enemy.stunned e = false → Enemy.status_effects e = [] →
  Enemy.get_next_ability e = Some (n, e') →
  scale 1 100 (frac u) ≤ default 85 (accuracy (default scratch (abilities !! n))) →
  0 < int (inject_Z (Enemy.damage e)
           * default 1%Q (damage_mult (default scratch (abilities !! n)))) →
  DamageType_by_name
    (upper (default "PHYSICAL" (damage_type (default scratch (abilities !! n)))))
  = Some dt →
  let o := process_player_turn "defend" target item s (u :: t) in
  result o = Raises AttributeError
  ∧ state (final o) = ENEMY_TURN
  ∧ player (final o) = player s.
Proof.
  intros Hst He Halive Hstun Hnil Hn Hroll Hdmg Hdt o. subst o.
  rewrite process_player_turn_defend by exact Hst.
  destruct (player_defend_returns s (u :: t))
    as (s1 & Hdef & Hst1 & He1 & Hpl1 & Htc1).
  rewrite (bind_returns _ _ _ _ _ _ _ Hdef). rewrite He in He1.
  set (s2 := set_turn_count (turn_count s1 + 1) (set_state ENEMY_TURN s1)).
  assert (process_enemy_turn s2 (u :: t)
          = Out (Raises AttributeError)
                (set_enemy
                   (Some (Enemy.set_pattern_index
                            (Enemy.pattern_index e + 1) e)) s2) t) as Hturn.
  { rewrite (process_enemy_turn_unfold s2 (u :: t) e n e' He1 Halive Hstun
               Hnil Hn).
    apply bind_raises. now apply use_ability_on_player_raises with (e := Enemy.set_pattern_index (Enemy.pattern_index e + 1) e) (dt := dt). }
  rewrite (after_player_action_enemy_raises MsgDefend s1 (u :: t) e
             AttributeError He1 Halive); fold s2; rewrite Hturn; cbn; auto.
Qed.

(** *** The ability table used by the resolver *)

Lemma player_ability_names n pa :
  get_player_ability n = Some pa →
  n ∈ ["power_attack"; "quick_strike"; "shield_bash"; "healing_light";
       "fireball"].
Proof.
  unfold get_player_ability. intros H.
  apply elem_of_list_to_map_2 in H.
  repeat (apply elem_of_cons in H as [[= -> _] | H]);
    [set_solver .. | inversion H].
Qed.

(** C6 (fails on the code). [use_ability] looks the name up in
    [self.abilities], where no name of the table of [get_player_ability]
    occurs, so every named player ability is resolved exactly as 'scratch'
    (multiplier 0.8, accuracy 90, physical), not with its own multiplier and
    accuracy. *)
Theorem named_ability_resolves_as_scratch n pa user target :
  get_player_ability n = Some pa →
  abilities !! n = None
  ∧ use_ability user n target = use_ability user "scratch" target.
Proof.
  intros H. apply player_ability_names in H.
  assert (abilities !! n = None) as Hnone.
  { repeat (apply elem_of_cons in H as [-> | H]);
      [vm_compute; reflexivity .. | inversion H]. }
  split; [exact Hnone|].
  unfold use_ability. rewrite Hnone.
  replace (abilities !! "scratch") with (Some scratch)
    by (vm_compute; reflexivity).
  reflexivity.
Qed.

(** *** Physical damage *)

Lemma randint_returns a b s t :
  a ≤ b → ∃ v t', randint a b s t = Out (Returns v) s t'.
Proof.
  intros Hab. unfold randint.
  destruct (b <? a) eqn:E; [apply Z.ltb_lt in E; lia |].
  destruct t as [| u t]; unfold bind, random, ret; eauto.
Qed.

(** A basic attack that connects lowers the enemy's health by at least 1
    (twice so on a critical hit). *)
Lemma player_attack_hit s u t e :
  enemy s = Some e →
  Qltb (match Player.accuracy_mod (player s) with
        | Some a => (85 * a)%Q
        | None => 85%Q
        end) (inject_Z (scale 1 100 (frac u))) = false →
  ∃ e', enemy (final (player_attack s (u :: t))) = Some e'
        ∧ Enemy.health e' ≤ Enemy.health e - 1.
Proof.
  intros He Hroll. unfold player_attack.
  unfold bind at 1, gets.
  rewrite (bind_returns _ _ _ _ _ _ _ (randint_cons 1 100 s u t ltac:(lia))).
  rewrite Hroll.
  destruct (randint_returns (Player.strength (player s) - 2)
              (Player.strength (player s) + 2) s t ltac:(lia))
    as (base_damage & t1 & Hbase).
  rewrite (bind_returns _ _ _ _ _ _ _ Hbase).
  unfold bind at 1, gets.
  set (damage := fold_left _ _ _).
  rewrite (bind_returns _ _ _ _ _ _ _
             (enemy_take_damage_some damage PHYSICAL s t1 e He)).
  pose proof (take_damage_physical_floor damage e) as Hd1.
  set (e1 := snd (Enemy.take_damage damage PHYSICAL e)) in *.
  assert (Enemy.health e1 = Enemy.health e
                            - fst (Enemy.take_damage damage PHYSICAL e))
    as Hh1 by reflexivity.
  unfold bind at 1, add_to_log, modify.
  set (s2 := set_combat_log _ _).
  assert (enemy s2 = Some e1) as He2 by reflexivity.
  destruct (randint_returns 1 20 s2 t1 ltac:(lia)) as (c & t2 & Hc).
  rewrite (bind_returns _ _ _ _ _ _ _ Hc).
  destruct (c =? 20).
  - rewrite (bind_returns _ _ _ _ _ _ _
               (enemy_take_damage_some _ PHYSICAL s2 t2 e1 He2)).
    eexists. split; [reflexivity|].
    pose proof (take_damage_physical_floor
                  (inject_Z (Qfloor (damage / 2))) e1) as Hd2.
    cbn [Enemy.take_damage fst snd Enemy.health Enemy.set_health] in *. lia.
  - exists e1. split; [exact He2 | lia].
Qed.

(** C9, as amended. [take_damage] with the physical type applies at least 1
    damage whatever the amount and whatever the enemy's defense; so does a
    basic attack that connects, and so does an ability that connects on the
    enemy with the physical type when its base damage
    int(strength * damage_mult) is positive. *)
Theorem physical_hit_at_least_one :
  (∀ amount e,
     1 ≤ fst (Enemy.take_damage amount PHYSICAL e)
     ∧ Enemy.health (snd (Enemy.take_damage amount PHYSICAL e))
       = Enemy.health e - fst (Enemy.take_damage amount PHYSICAL e))
  ∧ (∀ s u t e,
       enemy s = Some e →
       Qltb (match Player.accuracy_mod (player s) with
             | Some a => (85 * a)%Q
             | None => 85%Q
             end) (inject_Z (scale 1 100 (frac u))) = false →
       ∃ e', enemy (final (player_attack s (u :: t))) = Some e'
             ∧ Enemy.health e' ≤ Enemy.health e - 1)
  ∧ (∀ n s u t e,
       enemy s = Some e →
       scale 1 100 (frac u)
       ≤ default 85 (accuracy (default scratch (abilities !! n))) →
       DamageType_by_name
         (upper (default "PHYSICAL"
                   (damage_type (default scratch (abilities !! n)))))
       = Some PHYSICAL →
       0 < int (inject_Z (Player.strength (player s))
                * default 1%Q (damage_mult (default scratch (abilities !! n)))) →
       ∃ e', enemy (final (use_ability ThePlayer n TheEnemy s (u :: t)))
             = Some e'
             ∧ Enemy.health e' ≤ Enemy.health e - 1).
Proof.
  split; [| split].
  - intros amount e. split; [apply take_damage_physical_floor | reflexivity].
  - intros s u t e. apply player_attack_hit.
  - intros n s u t e He Hroll Hdt Hdmg. unfold use_ability.
    generalize dependent (default scratch (abilities !! n)). intros ab Hroll Hdt Hdmg.
    rewrite (bind_returns _ _ _ _ _ _ _ (randint_cons 1 100 s u t ltac:(lia))).
    apply Z.ltb_ge in Hroll. rewrite Hroll.
    unfold bind at 1. unfold bind at 1, gets. cbn [ret].
    rewrite Hdt. apply Z.ltb_lt in Hdmg. rewrite Hdmg.
    unfold target_take_damage.
    rewrite (bind_returns _ _ _ _ _ _ _
               (enemy_take_damage_some _ PHYSICAL s t e He)).
    match goal with
    | |- context [final (?m (set_enemy ?en s) t)] =>
      assert (preserves (λ s, Enemy.health <$> enemy s) m) as Hk;
      [| specialize (Hk (set_enemy en s) t); cbn beta in Hk;
         destruct (enemy (final (m (set_enemy en s) t))) as [e' |];
         cbn in Hk; [| discriminate] ]
    end.
    + unfold apply_effect, modify_enemy, modify_player. frame.
    + exists e'. split; [reflexivity|].
      injection Hk as ->.
      pose proof (take_damage_physical_floor
                    (inject_Z (int (inject_Z (Player.strength (player s))
                        * default 1%Q (damage_mult ab))))
                    e).
      cbn [Enemy.take_damage fst snd Enemy.health Enemy.set_health] in *. lia.
Qed.

(** ** Rules for [inert] *)

Lemma inert_ret {A} (a : A) : inert (ret a).
Proof. intros d s t. reflexivity. Qed.

Lemma inert_raise {A} e : inert (raise e : M A).
Proof. intros d s t. reflexivity. Qed.

Lemma inert_gets {A} (f : CombatSystem → A) :
  (∀ d s, f (with_debuffs d s) = f s) → inert (gets f).
Proof. intros H d s t. unfold gets. rewrite H. reflexivity. Qed.

Lemma inert_modify f :
  (∀ d s, f (with_debuffs d s) = with_debuffs d (f s)) → inert (modify f).
Proof. intros H d s t. unfold modify. rewrite H. reflexivity. Qed.

Lemma inert_bind {A B} (m : M A) (k : A → M B) :
  inert m → (∀ a, inert (k a)) → inert (bind m k).
Proof.
  intros Hm Hk d s t. unfold bind. rewrite Hm.
  destruct (m s t) as [[a | e] s' t']; cbn.
  - apply Hk.
  - reflexivity.
Qed.

Lemma inert_random : inert random.
Proof. intros d s [| u t]; reflexivity. Qed.

Lemma inert_randint a b : inert (randint a b).
Proof.
  unfold randint. destruct (b <? a).
  - apply inert_raise.
  - apply inert_bind; [apply inert_random | intros; apply inert_ret].
Qed.

#[local] Hint Resolve inert_ret inert_raise inert_random inert_randint : frames.

Ltac inert_step :=
  first
    [ solve [auto with frames]
    | apply inert_bind; [| intros ?]
    | apply inert_gets; intros ? ?; reflexivity
    | apply inert_modify; intros ? ?; reflexivity
    | match goal with
      | |- inert (match ?x with _ => _ end) => destruct x
      | |- inert (let '(_, _) := ?x in _) => destruct x
      end ].

Ltac inert_all := repeat inert_step.

Lemma the_enemy_inert : inert the_enemy.
Proof. unfold the_enemy. inert_all. Qed.

Lemma who_inert c : inert (who c).
Proof. unfold who. inert_all. Qed.

Lemma add_to_log_inert m : inert (add_to_log m).
Proof. unfold add_to_log. inert_all. Qed.

Lemma modify_enemy_inert f : inert (modify_enemy f).
Proof. unfold modify_enemy. inert_all. Qed.

Lemma modify_player_inert f : inert (modify_player f).
Proof. unfold modify_player. inert_all. Qed.
#[local] Hint Resolve the_enemy_inert who_inert add_to_log_inert
  modify_enemy_inert modify_player_inert : frames.

Lemma enemy_take_damage_inert a d : inert (enemy_take_damage a d).
Proof. unfold enemy_take_damage. inert_all. Qed.
#[local] Hint Resolve enemy_take_damage_inert : frames.

(** The only writer of [player_debuffs]: it appends. *)
Lemma apply_effect_inert n c d p : inert (apply_effect n c d p).
Proof.
  unfold apply_effect. inert_all.
  apply inert_modify. intros d0 s0. unfold with_debuffs. cbn.
  now rewrite app_assoc.
Qed.
#[local] Hint Resolve apply_effect_inert : frames.

Lemma use_ability_inert u n c : inert (use_ability u n c).
Proof. unfold use_ability, target_take_damage. inert_all. Qed.
#[local] Hint Resolve use_ability_inert : frames.

Lemma player_attack_inert : inert player_attack.
Proof. unfold player_attack. inert_all. Qed.

Lemma player_defend_inert : inert player_defend.
Proof. unfold player_defend. inert_all. Qed.

Lemma player_ability_inert n : inert (player_ability n).
Proof. unfold player_ability. inert_all. Qed.

Lemma apply_item_effects_inert l r : inert (apply_item_effects l r).
Proof.
  revert r. induction l as [| eff l IH]; intros r; simpl.
  - inert_all.
  - destruct eff; inert_all; apply IH.
Qed.
#[local] Hint Resolve apply_item_effects_inert : frames.

Lemma player_use_item_inert n : inert (player_use_item n).
Proof. unfold player_use_item. inert_all. Qed.

Lemma player_flee_inert : inert player_flee.
Proof. unfold player_flee. inert_all. Qed.

Lemma process_enemy_turn_inert : inert process_enemy_turn.
Proof.
  unfold process_enemy_turn, enemy_process_status_effects,
    enemy_get_next_ability.
  inert_all.
Qed.

Lemma roll_loot_inert table loot : inert (roll_loot table loot).
Proof.
  revert loot. induction table as [| item rest IH]; intros loot; simpl.
  - inert_all.
  - inert_all; apply IH.
Qed.
#[local] Hint Resolve roll_loot_inert : frames.

Lemma process_victory_inert : inert process_victory.
Proof. unfold process_victory, level_up, get_loot. inert_all. Qed.

Lemma process_defeat_inert : inert process_defeat.
Proof. unfold process_defeat. inert_all. Qed.
#[local] Hint Resolve player_attack_inert player_defend_inert
  player_ability_inert player_use_item_inert player_flee_inert
  process_enemy_turn_inert process_victory_inert process_defeat_inert : frames.

Lemma after_player_action_inert first : inert (after_player_action first).
Proof. unfold after_player_action. inert_all. Qed.
#[local] Hint Resolve after_player_action_inert : frames.

Lemma process_player_turn_inert action target item :
  inert (process_player_turn action target item).
Proof. unfold process_player_turn. inert_all. Qed.
#[local] Hint Resolve process_player_turn_inert : frames.

Lemma process_turn_inert action : inert (process_turn action).
Proof. unfold process_turn. inert_all. Qed.

Lemma start_combat_inert enemy_type level_mult :
  inert (start_combat enemy_type level_mult).
Proof. unfold start_combat, Enemy_init. inert_all. Qed.

Lemma with_debuffs_split s :
  s = with_debuffs (player_debuffs s) (set_player_debuffs [] s).
Proof.
  destruct s. unfold with_debuffs, set_player_debuffs. cbn.
  now rewrite app_nil_r.
Qed.

Lemma inert_appends {A} (m : M A) s t :
  inert m →
  ∃ added, player_debuffs (final (m s t)) = player_debuffs s ++ added.
Proof.
  intros Hm.
  pose proof (Hm (player_debuffs s) (set_player_debuffs [] s) t) as H.
  rewrite <- with_debuffs_split in H. rewrite H. cbn. eauto.
Qed.

(** C10. Entries of [player_debuffs] are never ticked. Running an operation
    (a player turn, the turn wrapper, the enemy's turn, the start of a
    combat) with extra entries in front of [player_debuffs] gives the same
    result, the same draws and the same [self], with those entries still in
    front and unchanged: none deals damage, none has its duration lowered,
    none is removed. In particular the list only grows at its end. *)
Theorem player_debuffs_are_never_ticked action target item enemy_type level_mult :
  inert (process_player_turn action target item)
  ∧ inert (process_turn action)
  ∧ inert (start_combat enemy_type level_mult)
  ∧ inert process_enemy_turn
  ∧ (∀ s t, ∃ added,
       player_debuffs (final (process_player_turn action target item s t))
       = player_debuffs s ++ added)
  ∧ (∀ s t, ∃ added,
       player_debuffs (final (start_combat enemy_type level_mult s t))
       = player_debuffs s ++ added).
Proof.
  repeat split.
  - apply process_player_turn_inert.
  - apply process_turn_inert.
  - apply start_combat_inert.
  - apply process_enemy_turn_inert.
  - intros s t. apply inert_appends, process_player_turn_inert.
  - intros s t. apply inert_appends, start_combat_inert.
Qed.

(** ** The example fights *)

Example start_combat_goblin :
  start_combat "goblin" 1 (CombatSystem_init hero) [0.5%Q]
  = Out (Returns tt) goblin_fight [].
Proof. vm_compute. reflexivity. Qed.

Example Enemy_init_troll :
  Enemy_init "troll" 1 enemy_types (CombatSystem_init hero) [0.5%Q]
  = Out (Returns troll) (CombatSystem_init hero) [].
Proof. vm_compute. reflexivity. Qed.

(** The skeleton test of the suite: 20 physical and 20 holy damage. *)
Example skeleton_damage_types :
  ∀ e, enemy (final (start_combat "skeleton" 1 (CombatSystem_init hero) []))
       = Some e →
       fst (Enemy.take_damage 20 PHYSICAL e) = 6
       ∧ fst (Enemy.take_damage 20 HOLY e) = 40.
Proof. intros e [= <-]. vm_compute. auto. Qed.

(** Ticking a poisoned goblin when the status table is reachable: each tick
    takes 4 health, and the tick that ends the effect finds 'on_end' set to
    [None] and raises on calling it. With the global unset, the first tick
    raises. *)
Example poison_ticks :
  let poisoned := Enemy.apply_status "poison" 2 goblin in
  let tick1 := Enemy.process_status_effects (Some status_effects) poisoned in
  let tick2 := Enemy.process_status_effects (Some status_effects) (snd tick1) in
  fst tick1 = Returns tt
  ∧ Enemy.health (snd tick1) = 21
  ∧ Enemy.status_effects (snd tick1) = [mkStatusEntry "poison" 1 1]
  ∧ fst tick2 = Raises TypeError
  ∧ Enemy.health (snd tick2) = 17
  ∧ fst (Enemy.process_status_effects combat_system poisoned)
    = Raises AttributeError.
Proof. vm_compute. auto 10. Qed.

(** A turn in which the goblin's Scratch misses leaves the session in
    ENEMY_TURN, and the next call is refused. *)
Example defend_then_stuck :
  let o := process_player_turn "defend" None None goblin_fight [0.99%Q] in
  result o = Returns [MsgDefend; MsgAbilityMiss (Named "Goblin") "Scratch"]
  ∧ state (final o) = ENEMY_TURN
  ∧ result (process_player_turn "attack" None None (final o) [])
    = Returns [MsgNotYourTurn]
  ∧ result (process_turn "attack" (final o) []) = Returns [MsgWait].
Proof. vm_compute. auto. Qed.

(** A flee that succeeds (draw 0 against a chance of 0.2) is followed by the
    goblin's turn. *)
Example flee_then_enemy_turn :
  let o := process_player_turn "flee" None None goblin_fight [0%Q; 0.99%Q] in
  (flee_chance 10 12 == 0.2)%Q
  ∧ result o = Returns [MsgFlee; MsgAbilityMiss (Named "Goblin") "Scratch"]
  ∧ state (final o) = ENEMY_TURN
  ∧ turn_count (final o) = 1.
Proof. split; [reflexivity | vm_compute; auto]. Qed.

(** The goblin's Scratch connects (roll 1): AttributeError. *)
Example goblin_hit_raises :
  let o := process_player_turn "defend" None None goblin_fight [0%Q] in
  result o = Raises AttributeError
  ∧ state (final o) = ENEMY_TURN
  ∧ Player.health (player (final o)) = 100.
Proof. vm_compute. auto. Qed.

(** 'fireball' at roll 80: above Fireball's accuracy 70, below Scratch's 90;
    the hit lands as Scratch, 6 physical damage, and 15 mana is spent. *)
Example fireball_lands_as_scratch :
  let o := process_player_turn "ability" (Some "fireball") None goblin_fight
             [0.79%Q; 0.99%Q] in
  scale 1 100 (frac 0.79%Q) = 80
  ∧ (pa_accuracy <$> get_player_ability "fireball") = Some (Some 70)
  ∧ result o
    = Returns [MsgAbility [UsesFor You "Scratch" (Named "Goblin") 6];
               MsgAbilityMiss (Named "Goblin") "Scratch"]
  ∧ enemy_health (final o) = 19
  ∧ Player.mana (player (final o)) = Some 35.
Proof. vm_compute. auto. Qed.

(** An item of type 'damage' raises too. *)
Example bomb_raises :
  let s := set_player (Player.set_inventory ["bomb"] hero) goblin_fight in
  let o := process_player_turn "use_item" None (Some "bomb") s [] in
  result o = Raises AttributeError ∧ state (final o) = PLAYER_TURN.
Proof. vm_compute. auto. Qed.

(** ** Instances of the theorems *)

Lemma turn_is_never_handed_back_witness :
  state goblin_fight = PLAYER_TURN
  ∧ recognised "defend"
  ∧ result (process_player_turn "defend" None None goblin_fight [0.99%Q])
    = Returns [MsgDefend; MsgAbilityMiss (Named "Goblin") "Scratch"]
  ∧ ∃ e',
      enemy (final (process_player_turn "defend" None None goblin_fight
                      [0.99%Q])) = Some e'
      ∧ state (final (process_player_turn "defend" None None goblin_fight
                        [0.99%Q]))
        = (if Enemy.is_alive e'
           then if Player.health
                     (player (final (process_player_turn "defend" None None
                                       goblin_fight [0.99%Q]))) <=? 0
                then DEFEAT else ENEMY_TURN
           else VICTORY)
      ∧ state (final (process_player_turn "defend" None None goblin_fight
                        [0.99%Q])) ≠ PLAYER_TURN.
Proof.
  assert (state goblin_fight = PLAYER_TURN) as H1 by reflexivity.
  assert (recognised "defend") as H2 by (unfold recognised; set_solver).
  assert (result (process_player_turn "defend" None None goblin_fight [0.99%Q])
          = Returns [MsgDefend; MsgAbilityMiss (Named "Goblin") "Scratch"])
    as H3 by (vm_compute; reflexivity).
  split; [exact H1|]. split; [exact H2|]. split; [exact H3|].
  exact (turn_is_never_handed_back "defend" None None goblin_fight [0.99%Q]
           _ H1 H2 H3).
Defined.

Lemma flee_success_is_overwritten_witness :
  state goblin_fight = PLAYER_TURN
  ∧ enemy goblin_fight = Some goblin
  ∧ Enemy.is_alive goblin = true
  ∧ Qltb (frac 0)
      (flee_chance (default 10 (Player.speed (player goblin_fight)))
         (Enemy.speed goblin)) = true
  ∧ state (final (process_player_turn "flee" None None goblin_fight
                    [0%Q; 0.99%Q])) ≠ FLEE
  ∧ turn_count (final (process_player_turn "flee" None None goblin_fight
                         [0%Q; 0.99%Q])) = turn_count goblin_fight + 1.
Proof.
  assert (state goblin_fight = PLAYER_TURN) as H1 by reflexivity.
  assert (enemy goblin_fight = Some goblin) as H2 by reflexivity.
  assert (Enemy.is_alive goblin = true) as H3 by reflexivity.
  assert (Qltb (frac 0)
            (flee_chance (default 10 (Player.speed (player goblin_fight)))
               (Enemy.speed goblin)) = true) as H4 by (vm_compute; reflexivity).
  split; [exact H1|]. split; [exact H2|]. split; [exact H3|]. split; [exact H4|].
  destruct (flee_success_is_overwritten None None goblin_fight 0%Q [0.99%Q]
              goblin H1 H2 H3 H4) as (Ha & _ & Hb & _).
  split; [exact Ha | exact Hb].
Defined.

Lemma enemy_hit_raises_witness :
  state goblin_fight = PLAYER_TURN
  ∧ enemy goblin_fight = Some goblin
  ∧ Enemy.get_next_ability goblin
    = Some ("basic", Enemy.set_pattern_index 1 goblin)
  ∧ abilities !! "basic" = None
  ∧ result (process_player_turn "defend" None None goblin_fight [0%Q])
    = Raises AttributeError.
Proof.
  assert (state goblin_fight = PLAYER_TURN) as H1 by reflexivity.
  assert (enemy goblin_fight = Some goblin) as H2 by reflexivity.
  assert (Enemy.is_alive goblin = true) as H3 by reflexivity.
  assert (Enemy.stunned goblin = false) as H4 by reflexivity.
  assert (Enemy.status_effects goblin = []) as H5 by reflexivity.
  assert (Enemy.get_next_ability goblin
          = Some ("basic", Enemy.set_pattern_index 1 goblin)) as H6
    by (vm_compute; reflexivity).
  assert (scale 1 100 (frac 0)
          ≤ default 85 (accuracy (default scratch (abilities !! "basic"))))
    as H7 by (vm_compute; discriminate).
  assert (0 < int (inject_Z (Enemy.damage goblin)
                   * default 1%Q
                       (damage_mult (default scratch (abilities !! "basic")))))
    as H8 by (vm_compute; reflexivity).
  assert (DamageType_by_name
            (upper (default "PHYSICAL"
                      (damage_type (default scratch (abilities !! "basic")))))
          = Some PHYSICAL) as H9 by (vm_compute; reflexivity).
  split; [exact H1|]. split; [exact H2|]. split; [exact H6|].
  split; [vm_compute; reflexivity|].
  exact (proj1 (enemy_hit_raises None None goblin_fight 0%Q [] goblin "basic"
                  _ PHYSICAL H1 H2 H3 H4 H5 H6 H7 H8 H9)).
Defined.

Lemma out_of_turn_call_is_rejected_witness :
  state (set_state VICTORY goblin_fight) ∈ [ENEMY_TURN; VICTORY; DEFEAT; FLEE]
  ∧ process_player_turn "attack" None None (set_state VICTORY goblin_fight)
      [0.5%Q]
    = Out (Returns [MsgNotYourTurn]) (set_state VICTORY goblin_fight) [0.5%Q].
Proof.
  assert (state (set_state VICTORY goblin_fight)
          ∈ [ENEMY_TURN; VICTORY; DEFEAT; FLEE]) as H by (cbn; set_solver).
  split; [exact H|].
  exact (out_of_turn_call_is_rejected "attack" None None
           (set_state VICTORY goblin_fight) [0.5%Q] H).
Defined.


Lemma named_ability_resolves_as_scratch_witness :
  get_player_ability "fireball"
  = Some (mkPlayerAbility "Fireball" 1.8%Q (Some 15) (Some 70) None None
            (Some "fire"))
  ∧ abilities !! "fireball" = None
  ∧ use_ability ThePlayer "fireball" TheEnemy
    = use_ability ThePlayer "scratch" TheEnemy.
Proof.
  assert (get_player_ability "fireball"
          = Some (mkPlayerAbility "Fireball" 1.8%Q (Some 15) (Some 70) None
                    None (Some "fire"))) as H by (vm_compute; reflexivity).
  split; [exact H|].
  exact (named_ability_resolves_as_scratch "fireball" _ ThePlayer TheEnemy H).
Defined.

Lemma take_damage_resistance_and_weakness_witness :
  Enemy.resistances troll !! value FIRE = Some 0.5%Q
  ∧ Enemy.weaknesses troll !! value FIRE = Some 0.8%Q
  ∧ (Enemy.resist_mult FIRE troll == 0.5 * 0.8)%Q
  ∧ fst (Enemy.take_damage 20 FIRE troll)
    = (if decide (FIRE = PHYSICAL)
       then Z.max 1 (int (20 * (0.5 * 0.8)) - Enemy.defense troll)
       else int (20 * (0.5 * 0.8)))
  ∧ Enemy.health (snd (Enemy.take_damage 20 FIRE troll))
    = Enemy.health troll - fst (Enemy.take_damage 20 FIRE troll).
Proof.
  assert (Enemy.resistances troll !! value FIRE = Some 0.5%Q) as H1
    by (vm_compute; reflexivity).
  assert (Enemy.weaknesses troll !! value FIRE = Some 0.8%Q) as H2
    by (vm_compute; reflexivity).
  split; [exact H1|]. split; [exact H2|].
  exact (take_damage_resistance_and_weakness troll 20 FIRE _ _ H1 H2).
Defined.

(** C9 as stated fails: a connecting Scratch (multiplier 0.8, physical type)
    by a player of strength 1 has base damage int(0.8) = 0, is reported as
    used, and takes nothing from the goblin's health. *)
Lemma weak_hit_deals_no_damage :
  damage_mult (default scratch (abilities !! "scratch")) = Some 0.8%Q
  ∧ damage_type (default scratch (abilities !! "scratch")) = None
  ∧ result (use_ability ThePlayer "scratch" TheEnemy weak_fight [0%Q])
    = Returns (MsgAbility [Uses You "Scratch"])
  ∧ ¬ (1 ≤ enemy_health weak_fight
           - enemy_health
               (final (use_ability ThePlayer "scratch" TheEnemy weak_fight
                         [0%Q]))).
Proof.
  split; [vm_compute; reflexivity|].
  split; [vm_compute; reflexivity|].
  split; [vm_compute; reflexivity|].
  vm_compute. intros H. apply H. reflexivity.
Qed.

Lemma physical_hit_at_least_one_witness :
  enemy goblin_fight = Some goblin
  ∧ (∃ e', enemy (final (use_ability ThePlayer "scratch" TheEnemy goblin_fight
                           [0%Q])) = Some e'
           ∧ Enemy.health e' ≤ Enemy.health goblin - 1).
Proof.
  assert (enemy goblin_fight = Some goblin) as H1 by reflexivity.
  assert (scale 1 100 (frac 0)
          ≤ default 85 (accuracy (default scratch (abilities !! "scratch"))))
    as H2 by (vm_compute; discriminate).
  assert (DamageType_by_name
            (upper (default "PHYSICAL"
                      (damage_type (default scratch (abilities !! "scratch")))))
          = Some PHYSICAL) as H3 by (vm_compute; reflexivity).
  assert (0 < int (inject_Z (Player.strength (player goblin_fight))
                   * default 1%Q
                       (damage_mult (default scratch (abilities !! "scratch")))))
    as H4 by (vm_compute; reflexivity).
  split; [exact H1|].
  exact (proj2 (proj2 physical_hit_at_least_one) "scratch" goblin_fight 0%Q []
           goblin H1 H2 H3 H4).
Defined.
